(** * apiens CRUD layer: [apiens/crud/crudbase.py] and [apiens/crud/query/query_api.py]

    A shallow embedding of the mutation/query pipeline.  Python objects live
    in a heap and are referred to by address, so that the entity returned by
    a query, mutated by [setattr] and written by [flush] is one shared
    object.  Methods are computations in a state-and-exception monad over the
    API object ([self.ssn], [self.params]) together with a log of the calls
    made on the session and on the pre-save hook. *)

From stdpp Require Import base option list gmap strings fin_maps.
From Stdlib Require Import ZArith.

Open Scope string_scope.
Open Scope list_scope.
Open Scope nat_scope.

(** ** Python values and exceptions *)

Inductive value :=
| VNone
| VBool (b : bool)
| VInt (n : Z)
| VStr (s : string).

Global Instance value_eq_dec : EqDecision value.
Proof. solve_decision. Defined.

(** A Python [dict] with string keys: input dictionaries, keyword arguments,
    attribute dictionaries, primary-key results. *)
Abbreviation dict := (gmap string value).

(** [dict(pairs)]: later pairs overwrite earlier ones. *)
Definition dict_of_pairs (l : list (string * value)) : dict :=
  foldl (λ m kv, <[kv.1 := kv.2]> m) ∅ l.

(** [d.get(k)], with a missing key read as [None]. *)
Definition dict_get (d : dict) (k : string) : value := default VNone (d !! k).

Inductive exn :=
| TypeError              (* invalid keyword argument; zip over None *)
| AttributeError         (* attribute read before it was ever set *)
| KeyError               (* missing key in an input dictionary *)
| NoResultFound          (* sa.exc.NoResultFound *)
| MultipleResultsFound   (* sa.exc.MultipleResultsFound *)
| IntegrityError         (* sa.exc.IntegrityError, raised by flush *)
| E_NOT_FOUND            (* apiens.error.exc.E_NOT_FOUND *)
| E_CONFLICT_DUPLICATE.  (* apiens.error.exc.E_CONFLICT_DUPLICATE *)

Global Instance exn_eq_dec : EqDecision exn.
Proof. solve_decision. Defined.

(** ** SQL expressions: the predicates returned by [filter()], [filter_one()] *)

Inductive expr :=
| Lit (b : bool)                 (* a plain [True] / [False] *)
| ColEq (c : string) (v : value) (* [Model.c == v] *)
| Not_ (e : expr)
| And_ (e1 e2 : expr)
| Or_ (e1 e2 : expr).

Global Instance expr_eq_dec : EqDecision expr.
Proof. solve_decision. Defined.

Fixpoint eval_expr (row : dict) (e : expr) : bool :=
  match e with
  | Lit b => b
  | ColEq c v => bool_decide (dict_get row c = v)
  | Not_ e => negb (eval_expr row e)
  | And_ e1 e2 => eval_expr row e1 && eval_expr row e2
  | Or_ e1 e2 => eval_expr row e1 || eval_expr row e2
  end.

(** The criteria given to [stmt.filter] / [q.filter]: every one must hold. *)
Definition eval_where (row : dict) (preds : list expr) : bool :=
  forallb (eval_expr row) preds.

(** ** The mapped class and its instances (SQLAlchemy declarative model) *)

Record MappedClass := {
  class_attrs : list string;   (* names [k] with [hasattr(cls, k)] *)
  pk_columns : list string;    (* the mapper's primary key, in order *)
  not_null : list string;      (* columns declared [nullable=False] *)
}.

(** Where an object stands with respect to the session (the flags of its
    instance state). *)
Inductive lifecycle :=
| Transient    (* constructed, not added to the session *)
| Pending      (* added, INSERT not yet flushed *)
| Persistent   (* has a row in the table *)
| Deleted      (* marked for deletion, DELETE not yet flushed *)
| Detached.    (* row deleted *)

Global Instance lifecycle_eq_dec : EqDecision lifecycle.
Proof. solve_decision. Defined.

(** An entity object.  [attrs] is the instance dictionary, [committed_state]
    is the change tracker of the instance state (the value an attribute had
    when it was first modified since the last flush), [key] the identity the
    object has in the database, absent until the object has been flushed. *)
Record instance := {
  attrs : dict;
  committed_state : dict;
  key : option (list value);
  status : lifecycle;
}.

Definition hasattr (cls : MappedClass) (k : string) : bool :=
  bool_decide (k ∈ class_attrs cls).

Definition getattr (o : instance) (k : string) : value := dict_get (attrs o) k.

(** [setattr(instance, key, value)].  A mapped attribute goes through the
    instrumentation, which remembers the previous value the first time the
    attribute is modified; any other name becomes a plain Python attribute
    of the object.  The assignments Python itself refuses (a value for
    [__class__] that is no class, a property without a setter) are not
    described: what is stated of the assignment loops is stated of the
    runs in which every assignment is carried out. *)
Definition setattr (cls : MappedClass) (o : instance) (k : string) (v : value) : instance :=
  {| attrs := <[k := v]> (attrs o);
     committed_state :=
       if hasattr cls k then
         match committed_state o !! k with
         | Some _ => committed_state o
         | None => <[k := getattr o k]> (committed_state o)
         end
       else committed_state o;
     key := key o;
     status := status o |}.

(** The values the database holds for a persistent object: the tracked
    original value where the attribute has a pending change, the current
    value otherwise. *)
Definition db_row (o : instance) : dict := committed_state o ∪ attrs o.

(** [instance_state(instance).identity] *)
Definition identity (o : instance) : option (list value) := key o.

(** The declarative constructor, [Model] called with keyword arguments:
    every keyword must be an attribute of the class, otherwise [TypeError]. *)
Definition blank_instance : instance :=
  {| attrs := ∅; committed_state := ∅; key := None; status := Transient |}.

Definition declarative_constructor (cls : MappedClass) (kwargs : dict) : exn + instance :=
  map_fold (λ k v acc,
      match acc with
      | inl e => inl e
      | inr o => if hasattr cls k then inr (setattr cls o k v) else inl TypeError
      end) (inr blank_instance) kwargs.

(** The loop [for key, value in input_dict.items(): setattr(instance, key,
    value)]. *)
Definition assign_all (cls : MappedClass) (o : instance) (d : dict) : instance :=
  map_fold (λ key value o, setattr cls o key value) o d.

(** ** The session: the entity objects it knows and the table behind them

    The ORM session as the handlers and the test suite rely on it: a query
    returns the objects of the identity map, [add] and [delete] mark
    objects, [flush] writes what is marked or modified and raises
    [IntegrityError] when the table refuses it (a NULL in a NOT NULL column,
    a primary key already there). *)

Record Session := {
  objects : list instance;   (* the heap of entity objects; a reference is a position *)
  serial : Z;                (* next value of the primary-key sequence *)
}.

Definition deref (s : Session) (a : nat) : instance :=
  default blank_instance (objects s !! a).

Definition store (s : Session) (a : nat) (o : instance) : Session :=
  {| objects := <[a := o]> (objects s); serial := serial s |}.

(** Allocation of a fresh Python object. *)
Definition alloc (s : Session) (o : instance) : nat * Session :=
  (length (objects s), {| objects := objects s ++ [o]; serial := serial s |}).

(** An object has a row in the table from its INSERT to its DELETE. *)
Definition in_table (o : instance) : bool :=
  match status o with
  | Persistent | Deleted => true
  | _ => false
  end.

(** The addresses of the objects whose row satisfies all of [preds]: the
    result of [ssn.query(Model).filter(...)].  The query reads the rows as
    the last flush left them; only the calls of [flush] below write them.
    A session created with autoflush (as the sessions of the test suite
    are) flushes what is pending before the query reads: its lookup is
    this one on the session that flush leaves, and nothing else when the
    session has nothing pending. *)
Definition select_where (s : Session) (preds : list expr) : list nat :=
  filter (λ a, in_table (deref s a) && eval_where (db_row (deref s a)) preds = true)
         (seq 0 (length (objects s))).

(** [Query.one()] *)
Definition one {A} (rows : list A) : exn + A :=
  match rows with
  | [] => inl NoResultFound
  | [r] => inr r
  | _ :: _ :: _ => inl MultipleResultsFound
  end.

Definition set_status (st : lifecycle) (o : instance) : instance :=
  {| attrs := attrs o; committed_state := committed_state o; key := key o; status := st |}.

(** [ssn.add(instance)] *)
Definition session_add (s : Session) (a : nat) : Session :=
  match status (deref s a) with
  | Transient => store s a (set_status Pending (deref s a))
  | _ => s
  end.

(** [ssn.delete(instance)] *)
Definition session_delete (s : Session) (a : nat) : Session :=
  match status (deref s a) with
  | Persistent => store s a (set_status Deleted (deref s a))
  | _ => s
  end.

(** [ssn.refresh(instance)]: attributes are loaded again from the row. *)
Definition session_refresh (s : Session) (a : nat) : Session :=
  let o := deref s a in
  if in_table o then
    store s a {| attrs := db_row o; committed_state := ∅; key := key o; status := status o |}
  else s.

(** *** Flush *)

Definition pk_tuple (cls : MappedClass) (row : dict) : list value :=
  dict_get row <$> pk_columns cls.

(** INSERT and UPDATE leave the object clean, with the identity of its row. *)
Definition flushed (cls : MappedClass) (o : instance) : instance :=
  {| attrs := attrs o; committed_state := ∅;
     key := Some (pk_tuple cls (attrs o)); status := Persistent |}.

(** A primary-key column left [None] takes the next value of the sequence. *)
Definition assign_pk (cls : MappedClass) (n : Z) (o : instance) : instance * Z :=
  if forallb (λ c, bool_decide (getattr o c ≠ VNone)) (pk_columns cls) then (o, n)
  else
    ({| attrs := foldr (λ c m, if bool_decide (dict_get m c = VNone)
                               then <[c := VInt n]> m else m)
                       (attrs o) (pk_columns cls);
        committed_state := committed_state o; key := key o; status := status o |},
     (n + 1)%Z).

Definition is_dirty (o : instance) : bool := bool_decide (committed_state o ≠ ∅).

(** Whether the flush writes the object's row. *)
Definition touched (o : instance) : bool :=
  match status o with
  | Pending => true
  | Persistent => is_dirty o
  | _ => false
  end.

Definition flush_object (cls : MappedClass) (n : Z) (o : instance) : instance * Z :=
  match status o with
  | Pending => let '(o1, n1) := assign_pk cls n o in (flushed cls o1, n1)
  | Persistent => (if is_dirty o then flushed cls o else o, n)
  | _ => (o, n)
  end.

Fixpoint flush_objects (cls : MappedClass) (n : Z) (os : list instance) : list instance * Z :=
  match os with
  | [] => ([], n)
  | o :: rest =>
      let '(o', n') := flush_object cls n o in
      let '(rest', n'') := flush_objects cls n' rest in
      (o' :: rest', n'')
  end.

(** NOT NULL holds of the primary key and of the declared columns. *)
Definition row_ok (cls : MappedClass) (o : instance) : bool :=
  forallb (λ c, bool_decide (getattr o c ≠ VNone)) (pk_columns cls ++ not_null cls).

Definition table_keys (cls : MappedClass) (os : list instance) : list (list value) :=
  (λ o, pk_tuple cls (db_row o)) <$> filter (λ o, in_table o = true) os.

(** The constraints the database checks on the rows written by a flush. *)
Definition constraints_ok (cls : MappedClass) (before after : list instance) : bool :=
  forallb (λ p, implb (touched p.1) (row_ok cls p.2)) (zip before after)
  && bool_decide (NoDup (table_keys cls after)).

(** The rows marked for deletion go last. *)
Definition reap (o : instance) : instance :=
  match status o with
  | Deleted => set_status Detached o
  | _ => o
  end.

(** [ssn.flush()]: the rows written and the constraints the database
    checks on them.  Of a flush that fails only the exception is described:
    the session then rolls back, and what it holds afterwards is not
    described here.  Column types and value ranges are not described
    either, so the violations found are those of NOT NULL and of the
    primary key. *)
Definition session_flush (cls : MappedClass) (s : Session) : exn + Session :=
  let '(os, n) := flush_objects cls (serial s) (objects s) in
  if constraints_ok cls (objects s) os
  then inr {| objects := reap <$> os; serial := n |}
  else inl IntegrityError.

(** ** Configuration and parameters of a CRUD handler *)

(** Modelled from the spec: [CrudSettings] ([apiens/crud/crudsettings.py]) is
    the static configuration of a handler: the entity class and the
    "declared ordered list of identity-field names", here the primary key of
    the mapped class. *)
Record CrudSettings := {
  Model : MappedClass;
  debug : bool;
}.

Definition primary_key (cs : CrudSettings) : list string := pk_columns (Model cs).

(** The interface of [CrudParams] ([apiens/crud/crudparams.py]) that the
    handlers call.  The three filters return predicate sets and have no side
    effect; [from_input_dict] returns the parameters as it leaves them, or
    the exception it raises. *)
Class CrudParamsT (P : Type) := {
  filter_ : P → list expr;
  filter_many : P → list expr;
  filter_one : P → list expr;
  from_input_dict : P → dict → exn + P;
}.

(** Modelled from the spec: [InstanceHistoryProxy] and
    [get_history_proxy_for_instance] ([apiens/tools/sqlalchemy]), the
    "read-only view of an entity's attribute values as they were before the
    current mutation began".  It keeps the change tracker of the instance
    (the before side of the "before/after diff" that attribute assignment
    records), copied when [copy] is set, and reads every other attribute
    from the instance itself. *)
Record InstanceHistoryProxy := {
  proxied : nat;
  history : dict;
}.

(** Values are immutable here, so a deep copy is the same dictionary. *)
Definition deepcopy (d : dict) : dict := d.

Definition get_history_proxy_for_instance (s : Session) (a : nat) (copy : bool)
  : InstanceHistoryProxy :=
  {| proxied := a;
     history := if copy then deepcopy (committed_state (deref s a))
                else committed_state (deref s a) |}.


(** The [prev] argument of the pre-save hook: a history proxy on update, the
    instance itself on delete. *)
Inductive prev_ref :=
| PrevProxy (p : InstanceHistoryProxy)
| PrevInstance (a : nat).


(** All the attributes [prev] shows at the time it is handed to the hook. *)
Definition prev_view (s : Session) (r : prev_ref) : dict :=
  match r with
  | PrevProxy p => history p ∪ attrs (deref s (proxied p))
  | PrevInstance a => attrs (deref s a)
  end.

(** ** The query engine (jessiql), as far as the handlers drive it *)

(** A query object: the selected columns, the caller's own filter, and the
    related entities to load, each with a query object of its own. *)
#[warnings="-register-all"]
Inductive QueryObject :=
| QueryObj (select : list string) (where_ : list expr)
           (join : list (string * QueryObject)).

Definition empty_query_object : QueryObject := QueryObj [] [] [].

(** [sa.sql.Select]: only its WHERE criteria matter here. *)
Record Select := {
  whereclause : list expr;
}.

Global Instance Select_eq_dec : EqDecision Select.
Proof. solve_decision. Defined.

(** [stmt.filter(...)] adds criteria to the statement. *)
Definition Select_filter (stmt : Select) (criteria : list expr) : Select :=
  {| whereclause := whereclause stmt ++ criteria |}.

(** [jessiql.Query]: the query of one level, [query_level] being 0 for the
    top query and one more for each step into a related entity. *)
Record Query := {
  query_level : nat;
  query_spec : QueryObject;
}.

(** The statements the engine builds for a query object, top level first. *)
Fixpoint plan (level : nat) (qo : QueryObject) : list (Query * Select) :=
  match qo with
  | QueryObj _ flt joins =>
      ({| query_level := level; query_spec := qo |}, {| whereclause := flt |})
      :: flat_map (λ j, plan (S level) j.2) joins
  end.

(** ** The calls a handler makes, in order *)

Inductive event :=
| SsnQuery (criteria : list expr)          (* ssn.query(Model).filter(...).one() *)
| SsnAdd (a : nat)                         (* ssn.add(instance) *)
| SsnFlush                                 (* ssn.flush() *)
| SsnRefresh (a : nat)                     (* ssn.refresh(instance) *)
| SsnDelete (a : nat)                      (* ssn.delete(instance) *)
| Presave (new : option nat) (prev : option prev_ref) (seen : option dict)
                                           (* _instance_hook_presave(new, prev) *)
| Execute (level : nat) (stmt : Select).   (* a statement of the query engine *)

Global Instance InstanceHistoryProxy_eq_dec : EqDecision InstanceHistoryProxy.
Proof. solve_decision. Defined.

Global Instance prev_ref_eq_dec : EqDecision prev_ref.
Proof. solve_decision. Defined.

Global Instance event_eq_dec : EqDecision event.
Proof. solve_decision. Defined.

Definition is_presave (e : event) : bool :=
  match e with Presave _ _ _ => true | _ => false end.

(** The calls that hand work to the persistence boundary. *)
Definition is_persistence (e : event) : bool :=
  match e with
  | SsnAdd _ | SsnFlush | SsnRefresh _ | SsnDelete _ => true
  | _ => false
  end.

Definition is_flush (e : event) : bool :=
  match e with SsnFlush => true | _ => false end.

(** ** The state-and-exception monad of a handler *)

(** The bound method a [QueryApi] keeps in [self._filter_func]. *)
Inductive filter_func :=
| params_filter
| params_filter_many
| params_filter_one.

Global Instance filter_func_eq_dec : EqDecision filter_func.
Proof. solve_decision. Defined.

(** The API object: [self.ssn] and [self.params] of [ModelQueryBase],
    [self._filter_func] of [QueryApi] (unset until a read method runs), and
    the log. *)
Record World (P : Type) := {
  ssn : Session;
  params : P;
  _filter_func : option filter_func;
  log : list event;
}.
Arguments ssn {P}.
Arguments params {P}.
Arguments _filter_func {P}.
Arguments log {P}.

Inductive outcome (P A : Type) :=
| Returned (a : A) (w : World P)
| Raised (e : exn) (w : World P).
Arguments Returned {P A}.
Arguments Raised {P A}.

Definition M (P A : Type) : Type := World P → outcome P A.

Definition ret {P A} (a : A) : M P A := λ w, Returned a w.

Definition bind {P A B} (m : M P A) (k : A → M P B) : M P B :=
  λ w, match m w with
       | Returned a w' => k a w'
       | Raised e w' => Raised e w'
       end.

Definition raise {P A} (e : exn) : M P A := λ w, Raised e w.

Global Instance M_ret {P} : MRet (M P) := λ A, ret.
Global Instance M_bind {P} : MBind (M P) := λ A B k m, bind m k.

Definition from_sum {P A} (r : exn + A) : M P A :=
  match r with
  | inl e => raise e
  | inr a => ret a
  end.

Definition emit {P} (e : event) : M P unit :=
  λ w, Returned () {| ssn := ssn w; params := params w;
                      _filter_func := _filter_func w; log := log w ++ [e] |}.

Definition get_ssn {P} : M P Session := λ w, Returned (ssn w) w.

Definition put_ssn {P} (s : Session) : M P unit :=
  λ w, Returned () {| ssn := s; params := params w;
                      _filter_func := _filter_func w; log := log w |}.

Definition get_params {P} : M P P := λ w, Returned (params w) w.

Definition put_params {P} (p : P) : M P unit :=
  λ w, Returned () {| ssn := ssn w; params := p;
                      _filter_func := _filter_func w; log := log w |}.

Definition get_filter_func {P} : M P filter_func :=
  λ w, match _filter_func w with
       | Some f => Returned f w
       | None => Raised AttributeError w
       end.

Definition put_filter_func {P} (f : filter_func) : M P unit :=
  λ w, Returned () {| ssn := ssn w; params := params w;
                      _filter_func := Some f; log := log w |}.

(** The session methods, as the handler calls them. *)
Definition ssn_query_one {P} (criteria : list expr) : M P nat :=
  emit (SsnQuery criteria);;
  s ← get_ssn;
  from_sum (one (select_where s criteria)).

Definition ssn_add {P} (a : nat) : M P unit :=
  emit (SsnAdd a);;
  s ← get_ssn;
  put_ssn (session_add s a).

Definition ssn_flush {P} (cls : MappedClass) : M P unit :=
  emit SsnFlush;;
  s ← get_ssn;
  s' ← from_sum (session_flush cls s);
  put_ssn s'.

Definition ssn_refresh {P} (a : nat) : M P unit :=
  emit (SsnRefresh a);;
  s ← get_ssn;
  put_ssn (session_refresh s a).

Definition ssn_delete {P} (a : nat) : M P unit :=
  emit (SsnDelete a);;
  s ← get_ssn;
  put_ssn (session_delete s a).

(** The engine's read methods.  Every statement of the plan goes through
    the customization hooks, with the query of its level, and is executed.
    What the engine returns for the statements it executed (the fields it
    selects, its pagination, the connection it reads through, what it does
    when no row is found) is its own business and is left open:
    [QueryEngine] has it as functions of the session and of the statements
    executed. *)
Class QueryEngine := {
  fetchall_result : Session → list (nat * Select) → exn + list dict;
  fetchone_result : Session → list (nat * Select) → exn + option dict;
  count_result : Session → list (nat * Select) → exn + nat;
}.

Section Engine.
Context {P : Type} {engine : QueryEngine}.

Definition customize_hook : Type := Query → Select → M P Select.

Fixpoint customize (hooks : list customize_hook) (q : Query) (stmt : Select) : M P Select :=
  match hooks with
  | [] => mret stmt
  | h :: rest => stmt' ← h q stmt; customize rest q stmt'
  end.

Fixpoint execute_plan (hooks : list customize_hook) (stmts : list (Query * Select))
  : M P (list (nat * Select)) :=
  match stmts with
  | [] => mret []
  | (q, stmt) :: rest =>
      stmt' ← customize hooks q stmt;
      emit (Execute (query_level q) stmt');;
      done_ ← execute_plan hooks rest;
      mret ((query_level q, stmt') :: done_)
  end.

Record QueryPage := {
  page_query_object : QueryObject;
  customize_statements : list customize_hook;
}.

(** The statements of a query, customized and executed. *)
Definition run (page : QueryPage) : M P (list (nat * Select)) :=
  execute_plan (customize_statements page) (plan 0 (page_query_object page)).

Definition QueryPage_fetchall (page : QueryPage) : M P (list dict) :=
  done_ ← run page;
  s ← get_ssn;
  from_sum (fetchall_result s done_).

Definition QueryPage_fetchone (page : QueryPage) : M P (option dict) :=
  done_ ← run page;
  s ← get_ssn;
  from_sum (fetchone_result s done_).

Definition QueryPage_count (page : QueryPage) : M P nat :=
  done_ ← run page;
  s ← get_ssn;
  from_sum (count_result s done_).
End Engine.

(** ** [apiens/crud/crudbase.py] *)

Module CrudBase.
Section Handlers.
Context {P : Type} `{!CrudParamsT P} {engine : QueryEngine}.
Variable crudsettings : CrudSettings.

(** *** [QueryApi] *)

Definition call_filter_func (f : filter_func) (p : P) : list expr :=
  match f with
  | params_filter => filter_ p
  | params_filter_many => filter_many p
  | params_filter_one => filter_one p
  end.

Definition _query_customize_statements (q : Query) (stmt : Select) : M P Select :=
  if bool_decide (query_level q = 0) then
    f ← get_filter_func;
    p ← get_params;
    mret (Select_filter stmt (call_filter_func f p))
  else
    mret stmt.

(** [__init__]: the query of the handler, with its customization hook. *)
Definition query (query_object : QueryObject) : QueryPage :=
  {| page_query_object := query_object;
     customize_statements := [_query_customize_statements] |}.

Definition list_ (query_object : QueryObject) : M P (list dict) :=
  put_filter_func params_filter_many;;
  QueryPage_fetchall (query query_object).

Definition get (query_object : QueryObject) : M P (option dict) :=
  put_filter_func params_filter_one;;
  QueryPage_fetchone (query query_object).

Definition count (query_object : QueryObject) : M P nat :=
  put_filter_func params_filter_many;;
  QueryPage_count (query query_object).

(** *** [MutateApiBase] *)

Variable COPY_INSTANCE_HISTORY : bool.

(** The hook of the base class does nothing; the log keeps its arguments
    and what [prev] shows when it is called. *)
Definition _instance_hook_presave (new : option nat) (prev : option prev_ref) : M P unit :=
  s ← get_ssn;
  emit (Presave new prev (prev_view s <$> prev)).

Definition _find_instance : M P nat :=
  p ← get_params;
  ssn_query_one (filter_one p).

Definition _create_instance_from_input_dict (input_dict : dict) : M P nat :=
  o ← from_sum (declarative_constructor (Model crudsettings) input_dict);
  s ← get_ssn;
  put_ssn (alloc s o).2;;
  mret (alloc s o).1.

Definition _update_instance_from_input_dict (instance : nat) (input_dict : dict) : M P nat :=
  s ← get_ssn;
  put_ssn (store s instance
             (assign_all (Model crudsettings) (deref s instance) input_dict));;
  mret instance.

Definition _create_instance (input_dict : dict) : M P nat :=
  instance ← _create_instance_from_input_dict input_dict;
  _instance_hook_presave (Some instance) None;;
  mret instance.

Definition _update_instance (instance : nat) (input_dict : dict) : M P nat :=
  instance ← _update_instance_from_input_dict instance input_dict;
  s ← get_ssn;
  let prev := get_history_proxy_for_instance s instance COPY_INSTANCE_HISTORY in
  _instance_hook_presave (Some instance) (Some (PrevProxy prev));;
  mret instance.

Definition _delete_instance (instance : nat) : M P nat :=
  _instance_hook_presave None (Some (PrevInstance instance));;
  mret instance.

Definition _session_create_instance_impl (instance : nat) : M P nat :=
  ssn_add instance;;
  ssn_flush (Model crudsettings);;
  mret instance.

Definition _session_update_instance_impl (instance : nat) : M P nat :=
  ssn_flush (Model crudsettings);;
  mret instance.

Definition _session_delete_instance_impl (instance : nat) : M P nat :=
  ssn_refresh instance;;
  ssn_delete instance;;
  ssn_flush (Model crudsettings);;
  mret instance.

(** *** [MutateApi] *)

Definition _get_primary_key_dict (instance : nat) : M P dict :=
  s ← get_ssn;
  match identity (deref s instance) with
  | Some ident => mret (dict_of_pairs (zip (primary_key crudsettings) ident))
  | None => raise TypeError
  end.

Definition create (input_dict : dict) : M P dict :=
  instance ← _create_instance input_dict;
  instance ← _session_create_instance_impl instance;
  _get_primary_key_dict instance.

Definition update_id (input_dict : dict) : M P dict :=
  instance ← _find_instance;
  instance ← _update_instance instance input_dict;
  instance ← _session_update_instance_impl instance;
  _get_primary_key_dict instance.

Definition update (input_dict : dict) : M P dict :=
  p ← get_params;
  p' ← from_sum (from_input_dict p input_dict);
  put_params p';;
  update_id input_dict.

Definition pk_provided (input_dict : dict) : bool :=
  bool_decide ((list_to_set (primary_key crudsettings) : gset string) ⊆ dom input_dict).

Definition create_or_update (input_dict : dict) : M P dict :=
  if pk_provided input_dict then update input_dict else create input_dict.

Definition delete : M P dict :=
  instance ← _find_instance;
  pk ← _get_primary_key_dict instance;
  instance ← _delete_instance instance;
  instance ← _session_delete_instance_impl instance;
  mret pk.
End Handlers.
End CrudBase.

(** ** [apiens/crud/query/query_api.py] *)

Module QueryApi.
Section Handlers.
Context {P : Type} `{!CrudParamsT P} {engine : QueryEngine}.

(** Modelled from the spec: [exc.converting_sa_erorrs] ([apiens/crud/exc]),
    the "error-translation scope that converts no row / multiple rows
    persistence-layer failures into the same NotFound taxonomy"; the
    conversion table is the one [tests/error/test_error_converting.py]
    checks. *)
Definition convert_sa_error (e : exn) : exn :=
  match e with
  | NoResultFound | MultipleResultsFound => E_NOT_FOUND
  | IntegrityError => E_CONFLICT_DUPLICATE
  | _ => e
  end.

Definition converting_sa_erorrs {A} (body : M P A) : M P A :=
  λ w, match body w with
       | Returned a w' => Returned a w'
       | Raised e w' => Raised (convert_sa_error e) w'
       end.

Definition _query_customize_statements (q : Query) (stmt : Select) : M P Select :=
  if bool_decide (query_level q = 0) then
    f ← get_filter_func;
    p ← get_params;
    mret (Select_filter stmt (CrudBase.call_filter_func f p))
  else
    mret stmt.

Definition init_query (query_object : QueryObject) : QueryPage :=
  {| page_query_object := query_object;
     customize_statements := [_query_customize_statements] |}.

Definition list_ (query_object : QueryObject) : M P (list dict) :=
  put_filter_func params_filter;;
  QueryPage_fetchall (init_query query_object).

Definition get (query_object : QueryObject) : M P (option dict) :=
  put_filter_func params_filter_one;;
  converting_sa_erorrs (QueryPage_fetchone (init_query query_object)).

Definition count (query_object : QueryObject) : M P nat :=
  put_filter_func params_filter;;
  QueryPage_count (init_query query_object).
End Handlers.
End QueryApi.

(** ** The parameters of the test suite *)

(** Modelled from the spec: the [CrudParams] base class
    ([apiens/crud/crudparams.py]) as the dataclasses of
    [tests/test_cqrs_crud.py] use it.  The fields of the dataclass hold the
    identity of the entity addressed ([id]) and the caller's context
    ([i_am_admin]); [filter()] is the overridable security filter;
    [filter_one()] is composed "from a shared base predicate plus
    identity-specific predicates"; [from_input_dict] "resolves identity"
    from an input that "must contain identity fields", storing it in the
    parameters ([update] discards its return value and then looks the
    entity up through [self.params]). *)
Section DataclassParams.
Variable crudsettings : CrudSettings.
Variable security : dict → list expr.   (* the body of [filter(self)] *)

Definition dc_filter (p : dict) : list expr := security p.

Definition dc_filter_primary_key (p : dict) : list expr :=
  (λ k, ColEq k (dict_get p k)) <$> primary_key crudsettings.

Definition dc_filter_one (p : dict) : list expr :=
  dc_filter_primary_key p ++ dc_filter p.

Definition dc_from_input_dict (p : dict) (input_dict : dict) : exn + dict :=
  foldl (λ acc k,
      match acc with
      | inl e => inl e
      | inr p' =>
          match input_dict !! k with
          | Some v => inr (<[k := v]> p')
          | None => inl KeyError
          end
      end) (inr p) (primary_key crudsettings).

Definition DataclassParams : CrudParamsT dict :=
  {| filter_ := dc_filter;
     filter_many := dc_filter;
     filter_one := dc_filter_one;
     from_input_dict := dc_from_input_dict |}.
End DataclassParams.

(** ** The models and parameters of [tests/test_cqrs_crud.py] *)

Definition User : MappedClass :=
  {| class_attrs := ["id"; "is_admin"; "login"; "name"; "articles"];
     pk_columns := ["id"];
     not_null := ["is_admin"] |}.

Definition User_settings : CrudSettings := {| Model := User; debug := true |}.

(** [UserIdCrudParams] of [test_crud_update]: only admins can modify admins. *)
Definition UserIdCrudParams_filter (p : dict) : list expr :=
  if bool_decide (dict_get p "i_am_admin" = VBool true) then []
  else [ColEq "is_admin" (VBool false)].

Definition UserIdCrudParams : CrudParamsT dict :=
  DataclassParams User_settings UserIdCrudParams_filter.

(** [UserCrudParams] without a security filter of its own. *)
Definition UserCrudParams : CrudParamsT dict :=
  DataclassParams User_settings (λ _, []).

Definition empty_session : Session := {| objects := []; serial := 1 |}.

Definition new_api {P} (s : Session) (p : P) : World P :=
  {| ssn := s; params := p; _filter_func := None; log := [] |}.

(** [jessiql.testing.insert]: a row put in the table directly. *)
Definition insert_row (cls : MappedClass) (s : Session) (row : dict) : Session :=
  {| objects := objects s ++
       [{| attrs := row; committed_state := ∅;
           key := Some (pk_tuple cls row); status := Persistent |}];
     serial := serial s |}.

(** What [all_users(ssn)] reads. *)
Definition all_rows (s : Session) : list dict :=
  (λ a, db_row (deref s a)) <$> select_where s [].


(** ** Observing a run *)

Definition world_of {P A} (o : outcome P A) : World P :=
  match o with
  | Returned _ w => w
  | Raised _ w => w
  end.

(** The world with another session, and with more calls in its log. *)
Definition with_ssn {P} (s : Session) (w : World P) : World P :=
  {| ssn := s; params := params w; _filter_func := _filter_func w; log := log w |}.

Definition logged {P} (t : list event) (w : World P) : World P :=
  {| ssn := ssn w; params := params w; _filter_func := _filter_func w;
     log := log w ++ t |}.

(** The three lifecycle operations of [MutateApi]. *)
Inductive lifecycle_op :=
| OpCreate (input_dict : dict)
| OpUpdateId (input_dict : dict)
| OpDelete.

Definition run_op {P} `{!CrudParamsT P} (cs : CrudSettings) (copy : bool)
    (op : lifecycle_op) : M P dict :=
  match op with
  | OpCreate d => CrudBase.create cs d
  | OpUpdateId d => CrudBase.update_id cs copy d
  | OpDelete => CrudBase.delete cs
  end.

Definition presave_count (t : list event) : nat :=
  length (List.filter is_presave t).

(** No call on the persistence boundary comes before the first call of the
    pre-save hook. *)
Fixpoint hook_precedes_persistence (t : list event) : bool :=
  match t with
  | [] => true
  | e :: t' =>
      if is_presave e then true
      else negb (is_persistence e) && hook_precedes_persistence t'
  end.

Definition flush_count (t : list event) : nat :=
  length (List.filter is_flush t).

(** A statement with [preds] added at the top level only. *)
Definition top_level_only (preds : list expr) (q : Query) (stmt : Select) : Select :=
  if bool_decide (query_level q = 0) then Select_filter stmt preds else stmt.

(** The statements a read method executes when [preds] is the predicate set
    bound, and the calls they leave in the log. *)
Definition customized (preds : list expr) (stmts : list (Query * Select))
  : list (nat * Select) :=
  (λ qs, (query_level qs.1, top_level_only preds qs.1 qs.2)) <$> stmts.

Definition executed (preds : list expr) (qo : QueryObject) : list (nat * Select) :=
  customized preds (plan 0 qo).

Definition execute_events (done_ : list (nat * Select)) : list event :=
  (λ ls, Execute ls.1 ls.2) <$> done_.

Definition with_filter_func {P} (f : filter_func) (w : World P) : World P :=
  {| ssn := ssn w; params := params w; _filter_func := Some f; log := log w |}.

(** The three read methods of [QueryApi], and the bound method each one
    stores in [self._filter_func]: in [crudbase.py] and in [query_api.py]. *)
Inductive read_method := ReadList | ReadGet | ReadCount.

Definition crudbase_binds (m : read_method) : filter_func :=
  match m with
  | ReadGet => params_filter_one
  | ReadList | ReadCount => params_filter_many
  end.

Definition query_api_binds (m : read_method) : filter_func :=
  match m with
  | ReadGet => params_filter_one
  | ReadList | ReadCount => params_filter
  end.

Definition crudbase_read {P} `{!CrudParamsT P} {engine : QueryEngine} (m : read_method)
    (qo : QueryObject) (w : World P) : World P :=
  match m with
  | ReadList => world_of (CrudBase.list_ qo w)
  | ReadGet => world_of (CrudBase.get qo w)
  | ReadCount => world_of (CrudBase.count qo w)
  end.

Definition query_api_read {P} `{!CrudParamsT P} {engine : QueryEngine} (m : read_method)
    (qo : QueryObject) (w : World P) : World P :=
  match m with
  | ReadList => world_of (QueryApi.list_ qo w)
  | ReadGet => world_of (QueryApi.get qo w)
  | ReadCount => world_of (QueryApi.count qo w)
  end.

(** An engine that finds no row, for the runs of the write handlers, which
    call no read method. *)
Definition empty_engine : QueryEngine :=
  {| fetchall_result _ _ := inr [];
     fetchone_result _ _ := inr None;
     count_result _ _ := inr 0 |}.

(** ** Worlds of the test suite *)

(** A table with the user [id=1, is_admin=False], as [test_crud_update] and
    [test_crud_delete] insert it. *)
Definition one_user : Session :=
  insert_row User empty_session (<["id" := VInt 1]> {["is_admin" := VBool false]}).

(** [MutateApi(ssn, UserIdCrudParams(id=1))] *)
Definition api_for_user_1 : World dict :=
  new_api one_user (<["id" := VInt 1]> {["i_am_admin" := VBool false]}).

(** A handler for a second user, whose [login] has been assigned in the
    session and not flushed yet when the handler is called. *)
Definition pending_login : Session :=
  let s := insert_row User one_user (<["id" := VInt 2]> {["is_admin" := VBool false]}) in
  store s 1 (setattr User (deref s 1) "login" (VStr "pending")).

Definition api_for_user_2 : World dict :=
  new_api pending_login (<["id" := VInt 2]> {["i_am_admin" := VBool false]}).

(** [MutateApi(ssn, UserIdCrudParams())]: no identity given yet. *)
Definition api_without_id : World dict :=
  new_api one_user (<["id" := VNone]> {["i_am_admin" := VBool false]}).

(** An object a flush has nothing to do for: neither pending nor marked for
    deletion, and clean when it is persistent. *)
Definition settled (o : instance) : bool :=
  match status o with
  | Pending | Deleted => false
  | Persistent => negb (is_dirty o)
  | Transient | Detached => true
  end.

Definition result_of {P A} (o : outcome P A) : exn + A :=
  match o with
  | Returned a _ => inr a
  | Raised e _ => inl e
  end.

(** [MutateApi(ssn, UserIdCrudParams(...))] of [test_crud_update]. *)
Module UserMutateApi.
Definition create : dict → M dict dict :=
  CrudBase.create (P := dict) User_settings.
Definition update_id : dict → M dict dict :=
  CrudBase.update_id (CrudParamsT0 := UserIdCrudParams) User_settings false.
Definition update : dict → M dict dict :=
  CrudBase.update (CrudParamsT0 := UserIdCrudParams) User_settings false.
Definition create_or_update : dict → M dict dict :=
  CrudBase.create_or_update (CrudParamsT0 := UserIdCrudParams) User_settings false.
Definition delete : M dict dict :=
  CrudBase.delete (CrudParamsT0 := UserIdCrudParams) User_settings.
End UserMutateApi.

(** Inputs of the test suite, and two more. *)
Definition change_login : dict := {["login" := VStr "john1"]}.
Definition update_login : dict := <["id" := VInt 1]> {["login" := VStr "john2"]}.
Definition unknown_column : dict := {["UNKNOWN" := VStr "INVALID"]}.
Definition make_admin : dict := <["id" := VInt 1]> {["is_admin" := VBool true]}.
Definition create_with_pk : dict := <["id" := VInt 999]> {["is_admin" := VBool false]}.
Definition create_one_field : dict := {["is_admin" := VBool false]}.

Definition pk_1 : dict := {["id" := VInt 1]}.
Definition pk_999 : dict := {["id" := VInt 999]}.

(** ** More to observe in a run *)

(** The entity a lifecycle operation resolves through the parameters. *)
Definition resolved_by {P} `{!CrudParamsT P} (op : lifecycle_op) (w : World P) : list nat :=
  match op with
  | OpCreate _ => []
  | OpUpdateId _ | OpDelete => select_where (ssn w) (filter_one (params w))
  end.

(** How the docstring of the hook tells the operations apart: [new] and not
    [prev] on create, both on update, [prev] and not [new] on delete. *)
Definition hook_arguments_of (op : lifecycle_op) (e : event) : bool :=
  match e with
  | Presave new prev _ =>
      match op, new, prev with
      | OpCreate _, Some _, None => true
      | OpUpdateId _, Some a, Some (PrevProxy p) => bool_decide (proxied p = a)
      | OpDelete, None, Some (PrevInstance _) => true
      | _, _, _ => false
      end
  | _ => true
  end.

Definition is_execute (e : event) : bool :=
  match e with Execute _ _ => true | _ => false end.

(** ** Python strings, as far as [doc.py] and [settings.py] use them *)

(** A [str] is a sequence of code points; a [string] here holds those below
    256, one per character. *)
Module PyStr.

(** [c.isspace()] for a code point below 256. *)
Definition isspace (c : Ascii.ascii) : bool :=
  let n := Ascii.nat_of_ascii c in
  (9 <=? n) && (n <=? 13) || (28 <=? n) && (n <=? 32)
  || (n =? 133) || (n =? 160).

(** [s.partition(sep)] for a separator of one character: the part before
    the first [sep], the separator, and the part after it; or [(s, '', '')]
    when [s] has no [sep]. *)
Fixpoint partition (sep : Ascii.ascii) (s : string) : string * string * string :=
  match s with
  | EmptyString => (EmptyString, EmptyString, EmptyString)
  | String c rest =>
      if decide (c = sep) then (EmptyString, String sep EmptyString, rest)
      else let '(head, found, tail) := partition sep rest in
           (String c head, found, tail)
  end.

(** [s.split(sep)] for a separator of one character. *)
Fixpoint split (sep : Ascii.ascii) (s : string) : list string :=
  match s with
  | EmptyString => [EmptyString]
  | String c rest =>
      if decide (c = sep) then EmptyString :: split sep rest
      else match split sep rest with
           | head :: tail => String c head :: tail
           | [] => [String c EmptyString]
           end
  end.

(** [sep.join(items)] *)
Fixpoint join (sep : Ascii.ascii) (items : list string) : string :=
  match items with
  | [] => EmptyString
  | [item] => item
  | item :: rest => item +:+ String sep (join sep rest)
  end.

Fixpoint lstrip (s : string) : string :=
  match s with
  | EmptyString => EmptyString
  | String c rest => if isspace c then lstrip rest else s
  end.

Fixpoint rstrip (s : string) : string :=
  match s with
  | EmptyString => EmptyString
  | String c rest =>
      match rstrip rest with
      | EmptyString => if isspace c then EmptyString else String c EmptyString
      | kept => String c kept
      end
  end.

(** [s.strip()] *)
Definition strip (s : string) : string := rstrip (lstrip s).

(** The number of occurrences of a character: [s.count(c)]. *)
Fixpoint count (c : Ascii.ascii) (s : string) : nat :=
  match s with
  | EmptyString => 0
  | String c' rest => (if decide (c' = c) then 1 else 0) + count c rest
  end.

(** The first and the last character, if any. *)
Definition first_char (s : string) : option Ascii.ascii :=
  match s with
  | EmptyString => None
  | String c _ => Some c
  end.

Fixpoint last_char (s : string) : option Ascii.ascii :=
  match s with
  | EmptyString => None
  | String c EmptyString => Some c
  | String _ rest => last_char rest
  end.
End PyStr.

(** ** [apiens/tools/settings/settings.py] *)

Module Settings.

Definition comma : Ascii.ascii := Ascii.ascii_of_nat 44.

(** [CorsMixin.prepare_cors_origins]: a [str] is split on commas and every
    item stripped; any other value is returned as it is. *)
Definition prepare_cors_origins {A} (v : string + A) : list string + A :=
  match v with
  | inl s => inl (PyStr.strip <$> PyStr.split comma s)
  | inr other => inr other
  end.
End Settings.

(** ** [apiens/doc.py] *)

(** The documentation objects are dataclass instances that [merge] changes
    in place, and a marker may come to hold the very object another marker
    holds: they live in a heap and the markers hold their addresses. *)
Module Doc.

Inductive pyerr :=
| KeyError
| AttributeError
| ValueError
| TypeError
| AssertionError.

#[export] Instance pyerr_eq_dec : EqDecision pyerr.
Proof. solve_decision. Defined.

(** [x or ''] for a string that may be [None], and [s or None]. *)
Definition or_empty (x : option string) : string := default EmptyString x.

Definition or_None (x : option string) : option string :=
  match x with
  | Some s => if decide (s = EmptyString) then None else Some s
  | None => None
  end.

(** The dataclasses derived from [Documentation], with the field each adds. *)
Inductive doc_class :=
| FunctionDoc
| ParameterDoc (name : string)
| ResultDoc
| ErrorDoc (error : string)
| DeprecatedDoc (version : string).

#[export] Instance doc_class_eq_dec : EqDecision doc_class.
Proof. solve_decision. Defined.

Record Documentation := {
  summary : option string;
  description : option string;
  class_ : doc_class;
}.

#[export] Instance Documentation_eq_dec : EqDecision Documentation.
Proof. solve_decision. Defined.

Abbreviation Heap := (list Documentation).

Definition blank : Documentation :=
  {| summary := None; description := None; class_ := FunctionDoc |}.

Definition read (h : Heap) (a : nat) : Documentation := default blank (h !! a).

(** A dataclass constructor call: a fresh object. *)
Definition new (h : Heap) (o : Documentation) : Heap * nat := (h ++ [o], length h).

Definition set_summary (h : Heap) (a : nat) (x : option string) : Heap :=
  <[a := {| summary := x; description := description (read h a);
            class_ := class_ (read h a) |}]> h.

Definition set_description (h : Heap) (a : nat) (x : option string) : Heap :=
  <[a := {| summary := summary (read h a); description := x;
            class_ := class_ (read h a) |}]> h.

(** [Documentation.merge]: the two assignments, in order, on the object at
    [self]; the result is [self]. *)
Definition Documentation_merge (h : Heap) (self : nat) (another : option nat) : Heap * nat :=
  match another with
  | Some b =>
      let h1 := set_summary h self
                  (Some (or_empty (summary (read h self)) +:+ or_empty (summary (read h b)))) in
      let h2 := set_description h1 self
                  (or_None (Some (or_empty (description (read h1 self))
                                  +:+ or_empty (description (read h1 b))))) in
      (h2, self)
  | None => (h, self)
  end.

(** The object at [a] once the one at [b] has been merged into it. *)
Definition merged (h : Heap) (a b : nat) : Documentation :=
  {| summary := Some (or_empty (summary (read h a)) +:+ or_empty (summary (read h b)));
     description := or_None (Some (or_empty (description (read h a))
                                   +:+ or_empty (description (read h b))));
     class_ := class_ (read h a) |}.

(** The marker [doc]. *)
Record doc := {
  function_doc : option nat;
  parameters_doc : gmap string nat;
  result_doc : option nat;
  errors_doc : gmap string nat;
  deprecated_doc : option nat;
  _parse_docstring : bool;
}.

(** [doc.__init__] *)
Definition init : doc :=
  {| function_doc := None; parameters_doc := ∅; result_doc := None;
     errors_doc := ∅; deprecated_doc := None; _parse_docstring := false |}.

Definition with_function_doc (x : option nat) (m : doc) : doc :=
  {| function_doc := x; parameters_doc := parameters_doc m; result_doc := result_doc m;
     errors_doc := errors_doc m; deprecated_doc := deprecated_doc m;
     _parse_docstring := _parse_docstring m |}.

Definition with_parameters_doc (x : gmap string nat) (m : doc) : doc :=
  {| function_doc := function_doc m; parameters_doc := x; result_doc := result_doc m;
     errors_doc := errors_doc m; deprecated_doc := deprecated_doc m;
     _parse_docstring := _parse_docstring m |}.

Definition with_result_doc (x : option nat) (m : doc) : doc :=
  {| function_doc := function_doc m; parameters_doc := parameters_doc m; result_doc := x;
     errors_doc := errors_doc m; deprecated_doc := deprecated_doc m;
     _parse_docstring := _parse_docstring m |}.

Definition with_errors_doc (x : gmap string nat) (m : doc) : doc :=
  {| function_doc := function_doc m; parameters_doc := parameters_doc m;
     result_doc := result_doc m; errors_doc := x; deprecated_doc := deprecated_doc m;
     _parse_docstring := _parse_docstring m |}.

Definition with_deprecated_doc (x : option nat) (m : doc) : doc :=
  {| function_doc := function_doc m; parameters_doc := parameters_doc m;
     result_doc := result_doc m; errors_doc := errors_doc m; deprecated_doc := x;
     _parse_docstring := _parse_docstring m |}.

(** The class methods that build a marker. *)
Definition string_ : doc :=
  {| function_doc := None; parameters_doc := ∅; result_doc := None;
     errors_doc := ∅; deprecated_doc := None; _parse_docstring := true |}.

Definition function (h : Heap) (summary_ : string) (description_ : option string)
  : Heap * doc :=
  let '(h1, a) := new h {| summary := Some summary_; description := description_;
                           class_ := FunctionDoc |} in
  (h1, with_function_doc (Some a) init).

Definition parameter (h : Heap) (name summary_ : string) (description_ : option string)
  : Heap * doc :=
  let '(h1, a) := new h {| summary := Some summary_; description := description_;
                           class_ := ParameterDoc name |} in
  (h1, with_parameters_doc (<[name := a]> (parameters_doc init)) init).

Definition result (h : Heap) (summary_ : string) (description_ : option string)
  : Heap * doc :=
  let '(h1, a) := new h {| summary := Some summary_; description := description_;
                           class_ := ResultDoc |} in
  (h1, with_result_doc (Some a) init).

Definition error (h : Heap) (error_ summary_ : string) (description_ : option string)
  : Heap * doc :=
  let '(h1, a) := new h {| summary := Some summary_; description := description_;
                           class_ := ErrorDoc error_ |} in
  (h1, with_result_doc (Some a) init).

(** One of the three lines of [doc.merge] for a dataclass field. *)
Definition merge_field (h : Heap) (mine theirs : option nat) : Heap * option nat :=
  match mine with
  | Some a => let '(h1, a1) := Documentation_merge h a theirs in (h1, Some a1)
  | None => (h, theirs)
  end.

(** [doc.merge]: the marker [self] after the call, and the heap. *)
Definition merge (h : Heap) (self another : doc) : Heap * doc :=
  let self1 := with_parameters_doc (parameters_doc another ∪ parameters_doc self) self in
  let self2 := with_errors_doc (errors_doc another ∪ errors_doc self1) self1 in
  let '(h1, f) := merge_field h (function_doc self2) (function_doc another) in
  let self3 := with_function_doc f self2 in
  let '(h2, r) := merge_field h1 (result_doc self3) (result_doc another) in
  let self4 := with_result_doc r self3 in
  let '(h3, d) := merge_field h2 (deprecated_doc self4) (deprecated_doc another) in
  (h3, with_deprecated_doc d self4).

(** The documentation objects a marker holds in its three dataclass
    fields, and what one field documents after [merge]: the receiver's
    object with the other's merged into it, or the other's object when the
    receiver had none. *)
Definition held (m : doc) : list nat :=
  omap id [function_doc m; result_doc m; deprecated_doc m].

Definition merged_field (h : Heap) (mine theirs : option nat) : option Documentation :=
  match mine, theirs with
  | Some a, Some b => Some (merged h a b)
  | Some a, None => Some (read h a)
  | None, _ => read h <$> theirs
  end.

(** What a decorated function does when called. *)
Inductive call_result (A : Type) :=
| Returns (a : A)
| RaisesApplicationError (error_ : string)   (* an instance of the class [error_] *)
| RaisesAssertionError
| RaisesOther.
Arguments Returns {A}.
Arguments RaisesApplicationError {A}.
Arguments RaisesAssertionError {A}.
Arguments RaisesOther {A}.

(** [wrap_func_check_thrown_errors_are_documented]: the wrapper, applied. *)
Definition wrap_func_check_thrown_errors_are_documented {A} (self : doc)
    (func : call_result A) : call_result A :=
  match func with
  | RaisesApplicationError e =>
      if decide (is_Some (errors_doc self !! e)) then RaisesApplicationError e
      else RaisesAssertionError
  | other => other
  end.

(** [_add_doc_for_function], [_add_doc_for_result], [_add_doc_deprecated]:
    a first object is made when the marker holds none, and the new
    documentation is merged into the object held. *)
Definition _add_doc_for_function (h : Heap) (self : doc)
    (summary_ description_ : option string) : Heap * doc :=
  let '(h1, self1) :=
    match function_doc self with
    | Some _ => (h, self)
    | None =>
        let '(h1, a) := new h {| summary := Some EmptyString; description := None;
                                 class_ := FunctionDoc |} in
        (h1, with_function_doc (Some a) self)
    end in
  let '(h2, b) := new h1 {| summary := summary_; description := or_None description_;
                            class_ := FunctionDoc |} in
  match function_doc self1 with
  | Some a => ((Documentation_merge h2 a (Some b)).1, self1)
  | None => (h2, self1)
  end.

Definition _add_doc_for_parameter (h : Heap) (self : doc) (name : string)
    (summary_ description_ : option string) : Heap * doc :=
  let '(h1, a) := new h {| summary := summary_; description := or_None description_;
                           class_ := ParameterDoc name |} in
  (h1, with_parameters_doc (<[name := a]> (parameters_doc self)) self).

Definition _add_doc_for_result (h : Heap) (self : doc)
    (summary_ description_ : option string) : Heap * doc :=
  let '(h1, self1) :=
    match result_doc self with
    | Some _ => (h, self)
    | None =>
        let '(h1, a) := new h {| summary := Some EmptyString; description := None;
                                 class_ := ResultDoc |} in
        (h1, with_result_doc (Some a) self)
    end in
  let '(h2, b) := new h1 {| summary := summary_; description := or_None description_;
                            class_ := ResultDoc |} in
  match result_doc self1 with
  | Some a => ((Documentation_merge h2 a (Some b)).1, self1)
  | None => (h2, self1)
  end.

Definition _add_doc_deprecated (h : Heap) (self : doc) (version : string)
    (summary_ description_ : option string) : Heap * doc :=
  let '(h1, self1) :=
    match deprecated_doc self with
    | Some _ => (h, self)
    | None =>
        let '(h1, a) := new h {| summary := Some EmptyString; description := None;
                                 class_ := DeprecatedDoc EmptyString |} in
        (h1, with_deprecated_doc (Some a) self)
    end in
  let '(h2, b) := new h1 {| summary := summary_; description := or_None description_;
                            class_ := DeprecatedDoc version |} in
  match deprecated_doc self1 with
  | Some a => ((Documentation_merge h2 a (Some b)).1, self1)
  | None => (h2, self1)
  end.

Definition _add_doc_exception (h : Heap) (self : doc) (error_cls : string)
    (summary_ description_ : option string) : Heap * doc :=
  let '(h1, a) := new h {| summary := summary_; description := description_;
                           class_ := ErrorDoc error_cls |} in
  (h1, with_errors_doc (<[error_cls := a]> (errors_doc self)) self).

(** *** Objects of a namespace *)

(** What [issubclass(obj, BaseApplicationError)] makes of an object: a
    subclass (known by its name), another class, or not a class at all. *)
Inductive pykind :=
| ApplicationErrorClass (name : string)
| OtherClass
| NotAClass.

#[warnings="-register-all"]
Inductive pyobj :=
| PyObj (kind : pykind) (attributes : list (string * pyobj)).

Definition kind_of (o : pyobj) : pykind :=
  match o with PyObj k _ => k end.

Definition attributes_of (o : pyobj) : list (string * pyobj) :=
  match o with PyObj _ attributes => attributes end.

(** [getattr(object, name)] *)
Definition getattr (o : pyobj) (name : string) : pyerr + pyobj :=
  match list_find (λ kv, kv.1 = name) (attributes_of o) with
  | Some (_, (_, v)) => inr v
  | None => inl AttributeError
  end.

Definition dot : Ascii.ascii := Ascii.ascii_of_nat 46.

(** The loop of [find_object_in_namespace].  A round splits [attribute] at
    its first dot and keeps the part before the dot in [attribute] itself:
    the round after it splits that part again, not [next_attribute].
    [None] stands for a loop that has not ended after [fuel] rounds. *)
Fixpoint find_attribute (fuel : nat) (object : pyobj) (attribute : string)
  : option (pyerr + pyobj) :=
  match fuel with
  | 0 => None
  | S fuel =>
      let '(attribute, _, next_attribute) := PyStr.partition dot attribute in
      match getattr object attribute with
      | inl e => Some (inl e)
      | inr object =>
          if decide (next_attribute = EmptyString) then Some (inr object)
          else find_attribute fuel object attribute
      end
  end.

Definition find_object_in_namespace (namespace : gmap string pyobj) (reference : string)
  : option (pyerr + pyobj) :=
  let '(name, _, attribute) := PyStr.partition dot reference in
  match namespace !! name with
  | None => Some (inl KeyError)
  | Some object => find_attribute (S (String.length attribute)) object attribute
  end.

Section Builtins.
(** The names of [__builtins__]. *)
Variable builtins : gset string.

(** [_add_doc_exception_name]; [None] stands for a loop that has not
    ended. *)
Definition _add_doc_exception_name (h : Heap) (self : doc) (globals : gmap string pyobj)
    (error_name : string) (summary_ description_ : option string)
  : option (pyerr + Heap * doc) :=
  if decide (error_name ∈ builtins) then Some (inr (h, self))
  else
    match find_object_in_namespace globals error_name with
    | None => None
    | Some (inl KeyError) | Some (inl AttributeError) => Some (inl ValueError)
    | Some (inl e) => Some (inl e)
    | Some (inr error_cls) =>
        match kind_of error_cls with
        | NotAClass => Some (inl TypeError)
        | OtherClass => Some (inr (h, self))
        | ApplicationErrorClass name =>
            Some (inr (_add_doc_exception h self name summary_ description_))
        end
    end.
End Builtins.

(** What a marker documents of a function: the content of the object its
    field refers to. *)
Definition content (h : Heap) (field : option nat) : option Documentation :=
  read h <$> field.
End Doc.


(** A heap with the documentation of two functions and of a deprecation,
    to run the markers on. *)
Definition sample_docs : list Doc.Documentation :=
  [ {| Doc.summary := Some "Load a user"; Doc.description := None;
       Doc.class_ := Doc.FunctionDoc |};
    {| Doc.summary := Some " by id"; Doc.description := Some "Details";
       Doc.class_ := Doc.FunctionDoc |};
    {| Doc.summary := None; Doc.description := Some " and more";
       Doc.class_ := Doc.DeprecatedDoc "1.0" |} ].

(** A package whose module of errors has, next to the error class, an
    attribute named as the module itself. *)
Definition nested_globals : gmap string Doc.pyobj :=
  {[ "pkg" := Doc.PyObj Doc.NotAClass
                [("exc", Doc.PyObj Doc.NotAClass
                           [("E_NOT_FOUND",
                             Doc.PyObj (Doc.ApplicationErrorClass "E_NOT_FOUND") []);
                            ("exc", Doc.PyObj Doc.OtherClass [])])] ]}.
(** * Properties *)

(** ** Attribute assignment *)

Section Assignment.
Variable cls : MappedClass.

(** What the [setattr] loop leaves: the input on top of the old
    attributes, and in the change tracker the old value of every mapped
    attribute the loop touched for the first time. *)
Lemma assign_all_spec (o : instance) (d : dict) :
  attrs (assign_all cls o d) = d ∪ attrs o
  ∧ key (assign_all cls o d) = key o
  ∧ status (assign_all cls o d) = status o
  ∧ ∀ k, committed_state (assign_all cls o d) !! k =
         match committed_state o !! k with
         | Some x => Some x
         | None => if hasattr cls k && bool_decide (is_Some (d !! k))
                   then Some (getattr o k) else None
         end.
Proof.
  unfold assign_all.
  refine (map_fold_weak_ind
    (λ r (m : dict), attrs r = m ∪ attrs o ∧ key r = key o ∧ status r = status o
       ∧ ∀ k, committed_state r !! k =
              match committed_state o !! k with
              | Some x => Some x
              | None => if hasattr cls k && bool_decide (is_Some (m !! k))
                        then Some (getattr o k) else None
              end) _ _ _ _ d).
  - split; [by rewrite (left_id_L ∅ (∪))|]. split; [done|]. split; [done|].
    intros k. destruct (committed_state o !! k); [done|].
    rewrite lookup_empty, andb_false_r. done.
  - intros i x m r Hi (Ha & Hk & Hs & Hc). simpl.
    split; [by rewrite Ha, insert_union_l|]. split; [done|]. split; [done|].
    intros k. destruct (hasattr cls i) eqn:Hattr.
    + destruct (committed_state r !! i) eqn:Hri.
      * rewrite Hc. destruct (committed_state o !! k) eqn:Hok; [done|].
        destruct (decide (i = k)) as [->|Hne].
        -- rewrite Hc, Hok, Hattr, Hi in Hri. simpl in Hri. done.
        -- by rewrite lookup_insert_ne.
      * destruct (decide (i = k)) as [->|Hne].
        -- rewrite lookup_insert_eq. rewrite Hc in Hri.
           destruct (committed_state o !! k) eqn:Hok; [done|].
           rewrite Hattr. simpl.
           rewrite bool_decide_eq_true_2 by (rewrite lookup_insert_eq; eauto).
           unfold getattr, dict_get. rewrite Ha, lookup_union_r by done. done.
        -- rewrite !lookup_insert_ne by done. apply Hc.
    + rewrite Hc. destruct (committed_state o !! k) eqn:Hok; [done|].
      destruct (decide (i = k)) as [->|Hne].
      * rewrite Hattr. simpl. done.
      * by rewrite lookup_insert_ne.
Qed.

Lemma assign_all_attrs o d : attrs (assign_all cls o d) = d ∪ attrs o.
Proof. apply assign_all_spec. Qed.

Lemma assign_all_key o d : key (assign_all cls o d) = key o.
Proof. apply assign_all_spec. Qed.

Lemma assign_all_status o d : status (assign_all cls o d) = status o.
Proof. apply assign_all_spec. Qed.

Lemma assign_all_committed o d k :
  committed_state (assign_all cls o d) !! k =
  match committed_state o !! k with
  | Some x => Some x
  | None => if hasattr cls k && bool_decide (is_Some (d !! k))
            then Some (getattr o k) else None
  end.
Proof. apply assign_all_spec. Qed.

(** The constructor accepts exactly the dictionaries whose keys are all
    attributes of the class. *)
Lemma declarative_constructor_spec (kwargs : dict) :
  match declarative_constructor cls kwargs with
  | inr o => (∀ k, is_Some (kwargs !! k) → hasattr cls k = true)
             ∧ attrs o = kwargs ∧ key o = None ∧ status o = Transient
  | inl e => e = TypeError ∧ ∃ k, is_Some (kwargs !! k) ∧ hasattr cls k = false
  end.
Proof.
  unfold declarative_constructor.
  refine (map_fold_weak_ind
    (λ (r : exn + instance) (m : dict),
       match r with
       | inr o => (∀ k, is_Some (m !! k) → hasattr cls k = true)
                  ∧ attrs o = m ∧ key o = None ∧ status o = Transient
       | inl e => e = TypeError ∧ ∃ k, is_Some (m !! k) ∧ hasattr cls k = false
       end) _ _ _ _ kwargs).
  - split; [|done]. intros k [x Hx]. by rewrite lookup_empty in Hx.
  - intros i x m r Hi IH. destruct r as [e|o].
    + destruct IH as [-> (k & Hk & Hno)]. split; [done|]. exists k. split; [|done].
      destruct (decide (i = k)) as [->|]; [rewrite lookup_insert_eq; eauto|].
      by rewrite lookup_insert_ne.
    + destruct IH as (Hall & Ha & Hk & Hs).
      destruct (hasattr cls i) eqn:Hattr.
      * simpl. rewrite Ha. split; [|done]. intros k.
        destruct (decide (i = k)) as [->|]; [done|].
        rewrite lookup_insert_ne by done. apply Hall.
      * split; [done|]. exists i. rewrite lookup_insert_eq. eauto.
Qed.
End Assignment.

(** ** Flush *)

Section Flush.
Variable cls : MappedClass.

Lemma flush_objects_length n os : length (flush_objects cls n os).1 = length os.
Proof.
  revert n. induction os as [|o os IH]; intros n; simpl; [done|].
  destruct (flush_object cls n o) as [o' n'].
  specialize (IH n'). destruct (flush_objects cls n' os) as [rest n''].
  simpl in *. by rewrite IH.
Qed.

(** Every object is flushed on its own, with the value the sequence has
    when its turn comes. *)
Lemma flush_objects_lookup n os a o :
  os !! a = Some o →
  ∃ n', (flush_objects cls n os).1 !! a = Some (flush_object cls n' o).1.
Proof.
  revert n a. induction os as [|x os IH]; intros n a Ha; [done|].
  simpl. destruct (flush_object cls n x) as [x' n'] eqn:Hx.
  specialize (IH n'). destruct (flush_objects cls n' os) as [rest n''].
  destruct a as [|a]; simpl in *.
  - inversion Ha; subst. exists n. by rewrite Hx.
  - by apply IH.
Qed.

Lemma flush_objects_lookup_None n os a :
  os !! a = None → (flush_objects cls n os).1 !! a = None.
Proof.
  intros Ha. apply lookup_ge_None. rewrite flush_objects_length.
  by apply lookup_ge_None.
Qed.

Lemma session_flush_inv s s' :
  session_flush cls s = inr s' →
  objects s' = reap <$> (flush_objects cls (serial s) (objects s)).1
  ∧ constraints_ok cls (objects s) (flush_objects cls (serial s) (objects s)).1 = true.
Proof.
  unfold session_flush.
  destruct (flush_objects cls (serial s) (objects s)) as [os n]. simpl.
  destruct (constraints_ok cls (objects s) os); [|done].
  intros [= <-]. done.
Qed.

Lemma session_flush_deref s s' a :
  session_flush cls s = inr s' →
  ∃ n, deref s' a = reap (flush_object cls n (deref s a)).1.
Proof.
  intros [Hobj _]%session_flush_inv. unfold deref. rewrite Hobj, list_lookup_fmap.
  destruct (objects s !! a) as [o|] eqn:Ha.
  - destruct (flush_objects_lookup (serial s) _ _ _ Ha) as [n ->]. by exists n.
  - rewrite flush_objects_lookup_None by done. by exists 0%Z.
Qed.

(** A flush changes no attribute of an object that already has its row. *)
Lemma flush_keeps_attrs s s' a :
  session_flush cls s = inr s' →
  status (deref s a) ≠ Pending →
  attrs (deref s' a) = attrs (deref s a).
Proof.
  intros Hf Hst. destruct (session_flush_deref _ _ a Hf) as [n ->].
  unfold flush_object, reap.
  destruct (status (deref s a)) eqn:Hs; simpl; try rewrite Hs; try done.
  destruct (is_dirty (deref s a)); simpl; [done|by rewrite Hs].
Qed.
End Flush.

(** ** The session *)

Section SessionFacts.
Implicit Types (s : Session) (a b : nat) (o : instance).

Lemma deref_store s a o : a < length (objects s) → deref (store s a o) a = o.
Proof. intros Ha. unfold deref, store. simpl. by rewrite list_lookup_insert_eq. Qed.

Lemma deref_store_ne s a b o : a ≠ b → deref (store s a o) b = deref s b.
Proof. intros Hne. unfold deref, store. simpl. by rewrite list_lookup_insert_ne. Qed.

Lemma deref_out_of_range s a : length (objects s) ≤ a → deref s a = blank_instance.
Proof. intros Ha. unfold deref. by rewrite lookup_ge_None_2. Qed.

Lemma in_table_lt s a : in_table (deref s a) = true → a < length (objects s).
Proof.
  intros Hin. destruct (decide (a < length (objects s))) as [|Hge]; [done|].
  rewrite deref_out_of_range in Hin by lia. done.
Qed.

Lemma elem_of_select_where s preds a :
  a ∈ select_where s preds ↔
  in_table (deref s a) = true ∧ eval_where (db_row (deref s a)) preds = true.
Proof.
  unfold select_where. rewrite list_elem_of_filter, elem_of_seq, andb_true_iff.
  split; [tauto|]. intros [Hin Hev]. split; [done|].
  apply in_table_lt in Hin. lia.
Qed.

Lemma one_inr {A} (l : list A) (x : A) : one l = inr x ↔ l = [x].
Proof.
  destruct l as [|y [|z l]]; simpl; split; intros H; try done.
  - by inversion H.
  - by inversion H.
Qed.

Lemma select_where_one s preds a :
  one (select_where s preds) = inr a →
  select_where s preds = [a]
  ∧ in_table (deref s a) = true
  ∧ eval_where (db_row (deref s a)) preds = true.
Proof.
  intros Hone%one_inr. split; [done|].
  apply elem_of_select_where. rewrite Hone. by apply list_elem_of_singleton.
Qed.

Lemma session_refresh_deref s a :
  in_table (deref s a) = true →
  deref (session_refresh s a) a =
  {| attrs := db_row (deref s a); committed_state := ∅;
     key := key (deref s a); status := status (deref s a) |}.
Proof.
  intros Hin. unfold session_refresh. rewrite Hin.
  apply deref_store. by apply in_table_lt.
Qed.

(** The object [create] constructs, once added to the session. *)
Lemma created_object_pending s o :
  status o = Transient →
  deref (session_add (alloc s o).2 (alloc s o).1) (alloc s o).1 = set_status Pending o
  ∧ (alloc s o).1 = length (objects s).
Proof.
  intros Hst. split; [|done].
  assert (Hd : deref (alloc s o).2 (alloc s o).1 = o).
  { unfold alloc, deref. simpl. by rewrite lookup_app_r, Nat.sub_diag. }
  unfold session_add. rewrite Hd, Hst. apply deref_store.
  unfold alloc. simpl. rewrite length_app. simpl. lia.
Qed.

Lemma session_delete_status s a :
  in_table (deref s a) = true →
  status (deref (session_delete s a) a) = Deleted.
Proof.
  intros Hin. unfold session_delete.
  pose proof (in_table_lt _ _ Hin) as Hlt. unfold in_table in Hin.
  destruct (status (deref s a)) eqn:Hst; try done.
  by rewrite deref_store.
Qed.
End SessionFacts.

(** ** The handlers of [crudbase.py], step by step *)

Ltac crud_unfold :=
  cbv [CrudBase.create CrudBase.update_id CrudBase.update CrudBase.delete
       CrudBase.create_or_update
       CrudBase._find_instance CrudBase._create_instance CrudBase._update_instance
       CrudBase._delete_instance
       CrudBase._create_instance_from_input_dict
       CrudBase._update_instance_from_input_dict
       CrudBase._session_create_instance_impl CrudBase._session_update_instance_impl
       CrudBase._session_delete_instance_impl
       CrudBase._get_primary_key_dict CrudBase._instance_hook_presave
       ssn_query_one ssn_add ssn_flush ssn_refresh ssn_delete
       mbind M_bind bind mret M_ret ret raise from_sum emit
       get_ssn put_ssn get_params put_params logged with_ssn
       ssn params log _filter_func].

Ltac crud_cases :=
  repeat match goal with
         | |- context [match ?x with _ => _ end] =>
             lazymatch x with
             | one _ => destruct x eqn:?
             | session_flush _ _ => destruct x eqn:?
             | declarative_constructor _ _ => destruct x eqn:?
             | identity _ => destruct x eqn:?
             | from_input_dict _ _ => destruct x eqn:?
             end; cbv beta iota
         end.

Ltac crud_run :=
  intros; let w := lazymatch goal with w : World _ |- _ => w end in
  destruct w; crud_unfold; crud_cases; cbn [fmap option_fmap option_map];
  rewrite <- ?app_assoc; try reflexivity.

Section Runs.
Context {P : Type} `{!CrudParamsT P}.
Variable cs : CrudSettings.
Variable copy : bool.

Lemma create_run (d : dict) (w : World P) :
  CrudBase.create cs d w =
  match declarative_constructor (Model cs) d with
  | inl e => Raised e w
  | inr o =>
      let a := (alloc (ssn w) o).1 in
      let s1 := (alloc (ssn w) o).2 in
      let s2 := session_add s1 a in
      let t := [Presave (Some a) None None; SsnAdd a; SsnFlush] in
      match session_flush (Model cs) s2 with
      | inl e => Raised e (logged t (with_ssn s2 w))
      | inr s3 =>
          match identity (deref s3 a) with
          | Some ident =>
              Returned (dict_of_pairs (zip (primary_key cs) ident))
                       (logged t (with_ssn s3 w))
          | None => Raised TypeError (logged t (with_ssn s3 w))
          end
      end
  end.
Proof. crud_run. Qed.

Lemma update_id_run (d : dict) (w : World P) :
  CrudBase.update_id cs copy d w =
  let criteria := filter_one (params w) in
  match one (select_where (ssn w) criteria) with
  | inl e => Raised e (logged [SsnQuery criteria] w)
  | inr a =>
      let s1 := store (ssn w) a (assign_all (Model cs) (deref (ssn w) a) d) in
      let prev := PrevProxy (get_history_proxy_for_instance s1 a copy) in
      let t := [SsnQuery criteria;
                Presave (Some a) (Some prev) (Some (prev_view s1 prev));
                SsnFlush] in
      match session_flush (Model cs) s1 with
      | inl e => Raised e (logged t (with_ssn s1 w))
      | inr s2 =>
          match identity (deref s2 a) with
          | Some ident =>
              Returned (dict_of_pairs (zip (primary_key cs) ident))
                       (logged t (with_ssn s2 w))
          | None => Raised TypeError (logged t (with_ssn s2 w))
          end
      end
  end.
Proof. crud_run. Qed.

Lemma delete_run (w : World P) :
  CrudBase.delete cs w =
  let criteria := filter_one (params w) in
  match one (select_where (ssn w) criteria) with
  | inl e => Raised e (logged [SsnQuery criteria] w)
  | inr a =>
      match identity (deref (ssn w) a) with
      | None => Raised TypeError (logged [SsnQuery criteria] w)
      | Some ident =>
          let s1 := session_delete (session_refresh (ssn w) a) a in
          let prev := PrevInstance a in
          let t := [SsnQuery criteria;
                    Presave None (Some prev) (Some (prev_view (ssn w) prev));
                    SsnRefresh a; SsnDelete a; SsnFlush] in
          match session_flush (Model cs) s1 with
          | inl e => Raised e (logged t (with_ssn s1 w))
          | inr s2 =>
              Returned (dict_of_pairs (zip (primary_key cs) ident))
                       (logged t (with_ssn s2 w))
          end
      end
  end.
Proof. crud_run. Qed.

Lemma update_run (d : dict) (w : World P) :
  CrudBase.update cs copy d w =
  match from_input_dict (params w) d with
  | inl e => Raised e w
  | inr p' =>
      CrudBase.update_id cs copy d
        {| ssn := ssn w; params := p'; _filter_func := _filter_func w; log := log w |}
  end.
Proof. crud_run. Qed.
End Runs.

(** ** The pre-save hook and the persistence boundary *)

Section Hook.
Context {P : Type} `{!CrudParamsT P}.
Variable cs : CrudSettings.
Variable copy : bool.

Lemma log_logged (t : list event) (w : World P) : log (logged t w) = log w ++ t.
Proof. done. Qed.

Lemma log_with_ssn (s : Session) (w : World P) : log (with_ssn s w) = log w.
Proof. done. Qed.

(** C1.  In every run of create, update_id and delete the calls the
    operation adds to the log have the pre-save hook before any call on the
    persistence boundary (add, flush, refresh, delete).  A run that returns
    has called the hook exactly once and has flushed exactly once, after
    it; a run that raises has called the hook at most once. *)
Theorem presave_once_before_flush (op : lifecycle_op) (w : World P) :
  ∃ t : list event,
    log (world_of (run_op cs copy op w)) = log w ++ t
    ∧ hook_precedes_persistence t = true
    ∧ match run_op cs copy op w with
      | Returned _ _ => presave_count t = 1 ∧ flush_count t = 1
      | Raised _ _ => presave_count t ≤ 1
      end.
Proof.
  destruct op as [d|d|]; simpl.
  - rewrite create_run. cbv zeta. crud_cases; simpl world_of;
      rewrite ?log_logged, ?log_with_ssn;
      first [ eexists; split; [reflexivity|]; split; [reflexivity|]; cbv; lia
            | exists []; rewrite app_nil_r; split; [done|]; split; [done|]; cbv; lia ].
  - rewrite update_id_run. cbv zeta. crud_cases; simpl world_of;
      rewrite ?log_logged, ?log_with_ssn;
      eexists; (split; [reflexivity|]); (split; [reflexivity|]); cbv; lia.
  - rewrite delete_run. cbv zeta. crud_cases; simpl world_of;
      rewrite ?log_logged, ?log_with_ssn;
      eexists; (split; [reflexivity|]); (split; [reflexivity|]); cbv; lia.
Qed.
End Hook.

(** ** Resolving the entity *)

Section Lookup.
Context {P : Type} `{!CrudParamsT P}.
Variable cs : CrudSettings.
Variable copy : bool.

Lemma _find_instance_run (w : World P) :
  CrudBase._find_instance w =
  let criteria := filter_one (params w) in
  match one (select_where (ssn w) criteria) with
  | inl e => Raised e (logged [SsnQuery criteria] w)
  | inr a => Returned a (logged [SsnQuery criteria] w)
  end.
Proof. crud_run. Qed.

(** C2.  The entity of update_id and delete is resolved through the
    [filter_one] predicates of the parameters.  One matching row is
    returned; no matching row raises [NoResultFound] and two or more raise
    [MultipleResultsFound], two different exceptions; in both cases
    update_id and delete raise the same exception and leave the session
    as it was, so that no row is picked among several. *)
Theorem find_instance_one_or_fail (d : dict) (w : World P) :
  let criteria := filter_one (params w) in
  let w0 := logged [SsnQuery criteria] w in
  match select_where (ssn w) criteria with
  | [] =>
      CrudBase._find_instance w = Raised NoResultFound w0
      ∧ CrudBase.update_id cs copy d w = Raised NoResultFound w0
      ∧ CrudBase.delete cs w = Raised NoResultFound w0
  | [a] => CrudBase._find_instance w = Returned a w0
  | _ :: _ :: _ =>
      CrudBase._find_instance w = Raised MultipleResultsFound w0
      ∧ CrudBase.update_id cs copy d w = Raised MultipleResultsFound w0
      ∧ CrudBase.delete cs w = Raised MultipleResultsFound w0
  end
  ∧ ssn w0 = ssn w
  ∧ NoResultFound ≠ MultipleResultsFound.
Proof.
  intros criteria w0. split; [|done].
  rewrite _find_instance_run, update_id_run, delete_run. fold criteria. cbv zeta.
  destruct (select_where (ssn w) criteria) as [|a [|b rest]]; simpl; done.
Qed.
End Lookup.

(** ** The read methods and the customization hook *)

Section Query.
Context {P : Type} `{!CrudParamsT P} {engine : QueryEngine}.

Lemma customize_statements_run (q : Query) (stmt : Select) (w : World P) :
  CrudBase._query_customize_statements q stmt w =
  if bool_decide (query_level q = 0) then
    match _filter_func w with
    | Some f => Returned (Select_filter stmt (CrudBase.call_filter_func f (params w))) w
    | None => Raised AttributeError w
    end
  else Returned stmt w.
Proof.
  unfold CrudBase._query_customize_statements.
  destruct (bool_decide (query_level q = 0)); [|done].
  destruct w as [s p [f|] l]; done.
Qed.

Lemma execute_plan_run (stmts : list (Query * Select)) (w : World P) (f : filter_func) :
  _filter_func w = Some f →
  execute_plan [CrudBase._query_customize_statements] stmts w =
  let done_ := customized (CrudBase.call_filter_func f (params w)) stmts in
  Returned done_ (logged (execute_events done_) w).
Proof.
  revert w. induction stmts as [|[q stmt] stmts IH]; intros w Hf; cbv zeta.
  - destruct w; simpl. unfold logged; simpl. by rewrite app_nil_r.
  - cbn [execute_plan customize]. unfold mbind, M_bind, bind, mret, M_ret, ret.
    rewrite customize_statements_run, Hf. unfold top_level_only in *.
    cbn [customized fmap list_fmap fst snd]. unfold top_level_only.
    destruct (bool_decide (query_level q = 0)); cbn [emit];
      (rewrite IH by done); cbv zeta; cbn [params logged log ssn _filter_func];
      unfold customized, top_level_only, execute_events;
      cbn [fmap list_fmap fst snd];
      unfold logged; cbn [log ssn params _filter_func];
      rewrite <- app_assoc; reflexivity.
Qed.

Lemma run_page (f : filter_func) (qo : QueryObject) (w : World P) :
  run {| page_query_object := qo;
         customize_statements := [CrudBase._query_customize_statements] |}
      (with_filter_func f w) =
  let done_ := executed (CrudBase.call_filter_func f (params w)) qo in
  Returned done_ (logged (execute_events done_) (with_filter_func f w)).
Proof.
  unfold run. cbn [page_query_object customize_statements].
  by rewrite (execute_plan_run _ _ f).
Qed.

Lemma crudbase_read_run (m : read_method) (qo : QueryObject) (w : World P) :
  crudbase_read m qo w =
  logged (execute_events
            (executed (CrudBase.call_filter_func (crudbase_binds m) (params w)) qo))
         (with_filter_func (crudbase_binds m) w).
Proof.
  destruct m; unfold crudbase_read, CrudBase.list_, CrudBase.get, CrudBase.count,
    QueryPage_fetchall, QueryPage_fetchone, QueryPage_count, CrudBase.query;
    unfold mbind, M_bind, bind, put_filter_func, get_ssn; fold (with_filter_func (P:=P));
    cbn [crudbase_binds].
  - change {| ssn := ssn w; params := params w;
              _filter_func := Some params_filter_many; log := log w |}
      with (with_filter_func params_filter_many w).
    rewrite run_page. cbv zeta. unfold from_sum.
    by destruct (fetchall_result _ _).
  - change {| ssn := ssn w; params := params w;
              _filter_func := Some params_filter_one; log := log w |}
      with (with_filter_func params_filter_one w).
    rewrite run_page. cbv zeta. unfold from_sum.
    by destruct (fetchone_result _ _).
  - change {| ssn := ssn w; params := params w;
              _filter_func := Some params_filter_many; log := log w |}
      with (with_filter_func params_filter_many w).
    rewrite run_page. cbv zeta. unfold from_sum.
    by destruct (count_result _ _).
Qed.

Lemma query_api_read_run (m : read_method) (qo : QueryObject) (w : World P) :
  query_api_read m qo w =
  logged (execute_events
            (executed (CrudBase.call_filter_func (query_api_binds m) (params w)) qo))
         (with_filter_func (query_api_binds m) w).
Proof.
  destruct m; unfold query_api_read, QueryApi.list_, QueryApi.get, QueryApi.count,
    QueryApi.converting_sa_erorrs,
    QueryPage_fetchall, QueryPage_fetchone, QueryPage_count, QueryApi.init_query;
    unfold mbind, M_bind, bind, put_filter_func, get_ssn;
    cbn [query_api_binds];
    change (@QueryApi._query_customize_statements P _)
      with (@CrudBase._query_customize_statements P _).
  - change {| ssn := ssn w; params := params w;
              _filter_func := Some params_filter; log := log w |}
      with (with_filter_func params_filter w).
    rewrite run_page. cbv zeta. unfold from_sum.
    by destruct (fetchall_result _ _).
  - change {| ssn := ssn w; params := params w;
              _filter_func := Some params_filter_one; log := log w |}
      with (with_filter_func params_filter_one w).
    rewrite run_page. cbv zeta. unfold from_sum.
    by destruct (fetchone_result _ _).
  - change {| ssn := ssn w; params := params w;
              _filter_func := Some params_filter; log := log w |}
      with (with_filter_func params_filter w).
    rewrite run_page. cbv zeta. unfold from_sum.
    by destruct (count_result _ _).
Qed.

(** C3.  In both versions of [QueryApi] the hook the engine is given is
    [_query_customize_statements], and a read method is the engine's call
    made with a bound method of the parameters stored in [_filter_func]:
    [filter_many] (crudbase.py) or [filter] (query_api.py) for list and
    count, [filter_one] for get.  With a method stored, the hook returns a
    statement of level 0 with exactly the predicates that method gives for
    the parameters added to its WHERE clause, and returns a statement of
    any other level as it was given. *)
Theorem filter_bound_at_top_level_only (m : read_method) (qo : QueryObject)
    (w : World P) :
  (customize_statements (CrudBase.query qo) = [CrudBase._query_customize_statements]
   ∧ customize_statements (QueryApi.init_query qo)
     = [QueryApi._query_customize_statements])
  ∧ match m with
    | ReadList =>
        CrudBase.list_ qo w
        = QueryPage_fetchall (CrudBase.query qo) (with_filter_func params_filter_many w)
        ∧ QueryApi.list_ qo w
          = QueryPage_fetchall (QueryApi.init_query qo) (with_filter_func params_filter w)
    | ReadGet =>
        CrudBase.get qo w
        = QueryPage_fetchone (CrudBase.query qo) (with_filter_func params_filter_one w)
        ∧ QueryApi.get qo w
          = QueryApi.converting_sa_erorrs (QueryPage_fetchone (QueryApi.init_query qo))
              (with_filter_func params_filter_one w)
    | ReadCount =>
        CrudBase.count qo w
        = QueryPage_count (CrudBase.query qo) (with_filter_func params_filter_many w)
        ∧ QueryApi.count qo w
          = QueryPage_count (QueryApi.init_query qo) (with_filter_func params_filter w)
    end
  ∧ (∀ (q : Query) (stmt : Select) (f : filter_func) (w' : World P),
       _filter_func w' = Some f →
       let bound := match f with
                    | params_filter => filter_ (params w')
                    | params_filter_many => filter_many (params w')
                    | params_filter_one => filter_one (params w')
                    end in
       (query_level q = 0 →
        CrudBase._query_customize_statements q stmt w'
        = Returned {| whereclause := whereclause stmt ++ bound |} w'
        ∧ QueryApi._query_customize_statements q stmt w'
          = Returned {| whereclause := whereclause stmt ++ bound |} w')
       ∧ (query_level q ≠ 0 →
          CrudBase._query_customize_statements q stmt w' = Returned stmt w'
          ∧ QueryApi._query_customize_statements q stmt w' = Returned stmt w')).
Proof.
  split; [done|]. split.
  - destruct m; done.
  - intros q stmt f w' Hf. cbv zeta.
    change (@QueryApi._query_customize_statements P _)
      with (@CrudBase._query_customize_statements P _).
    rewrite customize_statements_run, Hf. split; intros Hq.
    + rewrite bool_decide_eq_true_2 by done. by destruct f.
    + by rewrite bool_decide_eq_false_2.
Qed.
End Query.

(** ** Deletion *)

Section Delete.
Context {P : Type} `{!CrudParamsT P}.
Variable cs : CrudSettings.

(** C4.  A delete that returns has resolved one entity, which had a row in
    the table before the call; the result is the zip of the identity-field
    names with the identity that entity had before the call, and after the
    call the row is gone. *)
Theorem delete_returns_prior_identity (w w' : World P) (pk : dict) :
  CrudBase.delete cs w = Returned pk w' →
  ∃ (a : nat) (ident : list value),
    select_where (ssn w) (filter_one (params w)) = [a]
    ∧ in_table (deref (ssn w) a) = true
    ∧ identity (deref (ssn w) a) = Some ident
    ∧ pk = dict_of_pairs (zip (primary_key cs) ident)
    ∧ in_table (deref (ssn w') a) = false
    ∧ ∃ seen, log w' = log w ++ [SsnQuery (filter_one (params w));
                                 Presave None (Some (PrevInstance a)) seen;
                                 SsnRefresh a; SsnDelete a; SsnFlush].
Proof.
  rewrite delete_run. cbv zeta.
  destruct (one _) as [e|a] eqn:Hone; [done|].
  apply select_where_one in Hone as (Hsel & Hin & _).
  destruct (identity (deref (ssn w) a)) as [ident|] eqn:Hid; [|done].
  destruct (session_flush _ _) as [e|s2] eqn:Hflush; [done|].
  intros [= <- <-]. exists a, ident. do 4 (split; [done|]). split; [|by eexists].
  destruct (session_flush_deref _ _ _ a Hflush) as [n Hd]. simpl. rewrite Hd.
  assert (Hst : status (deref (session_delete (session_refresh (ssn w) a) a) a) = Deleted).
  { apply session_delete_status. rewrite session_refresh_deref by done. done. }
  unfold flush_object. rewrite Hst. simpl. unfold reap. rewrite Hst. done.
Qed.
End Delete.

(** ** Update *)

Section Update.
Context {P : Type} `{!CrudParamsT P}.
Variable cs : CrudSettings.
Variable copy : bool.

(** The attributes of the entity after an update that returns. *)
Lemma update_id_attrs (d : dict) (w w' : World P) (pk : dict) :
  CrudBase.update_id cs copy d w = Returned pk w' →
  ∃ a : nat,
    select_where (ssn w) (filter_one (params w)) = [a]
    ∧ in_table (deref (ssn w) a) = true
    ∧ attrs (deref (ssn w') a) = d ∪ attrs (deref (ssn w) a).
Proof.
  rewrite update_id_run. cbv zeta.
  destruct (one _) as [e|a] eqn:Hone; [done|].
  apply select_where_one in Hone as (Hsel & Hin & _).
  destruct (session_flush _ _) as [e|s2] eqn:Hflush; [done|].
  destruct (identity (deref s2 a)); [|done].
  intros [= <- <-]. exists a. do 2 (split; [done|]). simpl.
  pose proof (in_table_lt _ _ Hin) as Hlt.
  rewrite (flush_keeps_attrs _ _ _ a Hflush).
  - rewrite deref_store by done. apply assign_all_attrs.
  - rewrite deref_store, assign_all_status by done.
    unfold in_table in Hin. by destruct (status (deref (ssn w) a)).
Qed.

(** C5.  After an update_id that returns, every attribute of the entity
    whose name is not a key of the input dictionary has the value it had
    before the call (and every key of the input has the input's value). *)
Theorem update_id_is_partial (d : dict) (w w' : World P) (pk : dict) :
  CrudBase.update_id cs copy d w = Returned pk w' →
  ∃ a : nat,
    select_where (ssn w) (filter_one (params w)) = [a]
    ∧ (∀ f, d !! f = None →
            attrs (deref (ssn w') a) !! f = attrs (deref (ssn w) a) !! f
            ∧ getattr (deref (ssn w') a) f = getattr (deref (ssn w) a) f)
    ∧ (∀ f v, d !! f = Some v → getattr (deref (ssn w') a) f = v).
Proof.
  intros (a & Hsel & _ & Hattrs)%update_id_attrs. exists a. split; [done|].
  unfold getattr, dict_get. rewrite Hattrs. split.
  - intros f Hf. by rewrite lookup_union_r.
  - intros f v Hf. by rewrite (lookup_union_Some_l _ _ _ _ Hf).
Qed.
End Update.

(** ** The previous-value snapshot *)

Section Snapshot.
Context {P : Type} `{!CrudParamsT P}.
Variable cs : CrudSettings.
Variable copy : bool.





End Snapshot.

(** ** What create can raise *)

Section CreateRaises.
Context {P : Type} `{!CrudParamsT P}.
Variable cs : CrudSettings.

End CreateRaises.

(** ** Unknown keys of the input dictionary *)

Section UnknownKeys.
Context {P : Type} `{!CrudParamsT P}.
Variable cs : CrudSettings.

(** C8, as amended.  create fails at the assignment of the fields when the
    input has a key that is not an attribute of the entity class: the
    constructor of the entity raises, and create raises the same exception
    before the hook is called and before anything is added to the session
    or recorded.  When no key of the input is an attribute of the class,
    the exception is the [TypeError] the constructor raises for a keyword
    it does not know. *)
Theorem unknown_key_create_raises (d : dict) (w : World P) :
  (∃ k, is_Some (d !! k) ∧ hasattr (Model cs) k = false) →
  (∃ e, declarative_constructor (Model cs) d = inl e
        ∧ CrudBase.create cs d w = Raised e w)
  ∧ ((∀ k, is_Some (d !! k) → hasattr (Model cs) k = false) →
     declarative_constructor (Model cs) d = inl TypeError
     ∧ CrudBase.create cs d w = Raised TypeError w).
Proof.
  intros (k & Hk & Hno). rewrite create_run.
  pose proof (declarative_constructor_spec (Model cs) d) as Hc.
  destruct (declarative_constructor (Model cs) d) as [e|o].
  - destruct Hc as [-> _]. split; [by exists TypeError|done].
  - destruct Hc as [Hall _]. rewrite (Hall k Hk) in Hno. done.
Qed.
End UnknownKeys.

(** ** The parameters of the call *)

Section Parameters.
Context {P : Type} `{!CrudParamsT P} {engine : QueryEngine}.
Variable cs : CrudSettings.
Variable copy : bool.

Lemma params_logged (t : list event) (w : World P) : params (logged t w) = params w.
Proof. done. Qed.

Lemma params_with_ssn (s : Session) (w : World P) : params (with_ssn s w) = params w.
Proof. done. Qed.

Lemma run_op_params (op : lifecycle_op) (w : World P) :
  params (world_of (run_op cs copy op w)) = params w.
Proof.
  destruct op as [d|d|]; simpl.
  - rewrite create_run. cbv zeta. by crud_cases.
  - rewrite update_id_run. cbv zeta. by crud_cases.
  - rewrite delete_run. cbv zeta. by crud_cases.
Qed.

(** C9, as amended.  create, update_id, delete, list, get and count leave
    the parameters as they were.  update replaces them by what
    [from_input_dict] makes of them with the input dictionary, and then
    proceeds as update_id; when [from_input_dict] raises, update raises
    the same exception and has changed nothing. *)
Theorem params_only_changed_by_update :
  (∀ (op : lifecycle_op) (w : World P),
      params (world_of (run_op cs copy op w)) = params w)
  ∧ (∀ (m : read_method) (qo : QueryObject) (w : World P),
        params (crudbase_read m qo w) = params w
        ∧ params (query_api_read m qo w) = params w)
  ∧ (∀ (d : dict) (w : World P),
        match from_input_dict (params w) d with
        | inr p' =>
            params (world_of (CrudBase.update cs copy d w)) = p'
            ∧ CrudBase.update cs copy d w =
              CrudBase.update_id cs copy d
                {| ssn := ssn w; params := p';
                   _filter_func := _filter_func w; log := log w |}
        | inl e => CrudBase.update cs copy d w = Raised e w
        end).
Proof.
  split; [apply run_op_params|]. split.
  - intros m qo w. by rewrite crudbase_read_run, query_api_read_run.
  - intros d w. rewrite update_run.
    destruct (from_input_dict (params w) d) as [e|p']; [done|]. split; [|done].
    apply (run_op_params (OpUpdateId d)).
Qed.
End Parameters.

(** ** Identity fields supplied by the caller *)

Section SuppliedIdentity.
Context {P : Type} `{!CrudParamsT P}.
Variable cs : CrudSettings.
Variable copy : bool.

Lemma dict_of_pairs_zip (ks : list string) (f : string → value) (k : string) :
  k ∈ ks → dict_of_pairs (zip ks (f <$> ks)) !! k = Some (f k).
Proof.
  unfold dict_of_pairs. generalize (∅ : dict) as acc.
  assert (Hgen : ∀ acc : dict,
    foldl (λ m (kv : string * value), <[kv.1 := kv.2]> m) acc (zip ks (f <$> ks)) !! k
    = if decide (k ∈ ks) then Some (f k) else acc !! k).
  { induction ks as [|c ks IH]; intros acc.
    - destruct (decide (k ∈ [])) as [Hin%elem_of_nil|]; done.
    - cbn [fmap list_fmap zip zip_with foldl fst snd]. rewrite IH.
      destruct (decide (k ∈ ks)) as [Hin|Hnin],
               (decide (k ∈ c :: ks)) as [Hin'|Hnin']; try done.
      + exfalso. apply Hnin'. by apply list_elem_of_further.
      + apply elem_of_cons in Hin' as [->|?]; [|done].
        by rewrite lookup_insert_eq.
      + rewrite lookup_insert_ne; [done|]. intros ->. apply Hnin'.
        apply list_elem_of_here. }
  intros acc Hin. rewrite Hgen. by rewrite decide_True.
Qed.

(** The sequence only fills the primary-key columns left [None]. *)
Lemma assign_pk_keeps (cls : MappedClass) (n : Z) (o : instance) (k : string) (v : value) :
  attrs o !! k = Some v → v ≠ VNone →
  attrs (assign_pk cls n o).1 !! k = Some v.
Proof.
  intros Hk Hv. unfold assign_pk. destruct (forallb _ _); [done|].
  cbn [fst attrs].
  induction (pk_columns cls) as [|c cols IH]; cbn [foldr]; [done|].
  destruct (bool_decide (dict_get _ c = VNone)) eqn:Hc; [|done].
  apply bool_decide_eq_true in Hc.
  destruct (decide (c = k)) as [->|Hne].
  - unfold dict_get in Hc, IH. rewrite IH in Hc. simpl in Hc. done.
  - by rewrite lookup_insert_ne.
Qed.

End SuppliedIdentity.

(** ** A flushed session *)

Section Settled.
Variable cls : MappedClass.

Lemma flush_object_settled n o : settled o = true → flush_object cls n o = (o, n).
Proof.
  unfold settled, flush_object. destruct (status o); try done.
  by destruct (is_dirty o).
Qed.

Lemma settled_not_touched o : settled o = true → touched o = false.
Proof.
  unfold settled, touched. destruct (status o); try done.
  by destruct (is_dirty o).
Qed.

Lemma reap_settled o : settled o = true → reap o = o.
Proof. unfold settled, reap. by destruct (status o). Qed.

Lemma flush_object_reap_settled n o : settled (reap (flush_object cls n o).1) = true.
Proof.
  unfold flush_object, reap, settled.
  destruct (status o) eqn:Hs; simpl; rewrite ?Hs; try done.
  - by destruct (assign_pk cls n o).
  - destruct (is_dirty o) eqn:Hd; simpl; rewrite ?Hs, ?Hd; done.
Qed.

(** After a flush every object of the session is settled. *)
Lemma session_flush_settled s s' a :
  session_flush cls s = inr s' → settled (deref s' a) = true.
Proof.
  intros Hf. destruct (session_flush_deref _ _ _ a Hf) as [n ->].
  apply flush_object_reap_settled.
Qed.

Lemma flush_objects_no_pending n os :
  Forall (λ o, status o ≠ Pending) os →
  flush_objects cls n os = ((λ o, (flush_object cls n o).1) <$> os, n).
Proof.
  induction 1 as [|o os Ho _ IH]; [done|].
  cbn [flush_objects fmap list_fmap].
  assert (Hn : flush_object cls n o = ((flush_object cls n o).1, n)).
  { unfold flush_object. destruct (status o); try done. }
  rewrite Hn, IH. done.
Qed.

Lemma table_keys_unique os i j oi oj :
  NoDup (table_keys cls os) →
  os !! i = Some oi → os !! j = Some oj →
  in_table oi = true → in_table oj = true →
  pk_tuple cls (db_row oi) = pk_tuple cls (db_row oj) →
  i = j.
Proof.
  assert (Hmem : ∀ (l : list instance) n o, l !! n = Some o → in_table o = true →
                   pk_tuple cls (db_row o) ∈ table_keys cls l).
  { intros l n o Hl Hin. unfold table_keys. apply list_elem_of_fmap.
    exists o. split; [done|]. apply list_elem_of_filter. split; [done|].
    by eapply list_elem_of_lookup_2. }
  revert i j. induction os as [|x os IH]; intros i j Hnd Hi Hj Hini Hinj Heq; [done|].
  unfold table_keys in Hnd. rewrite filter_cons in Hnd.
  destruct (decide (in_table x = true)) as [Hx|Hx].
  - rewrite fmap_cons in Hnd. apply NoDup_cons in Hnd as [Hnotin Hnd].
    destruct i as [|i], j as [|j]; simpl in *; simplify_eq; try done.
    + exfalso. apply Hnotin. rewrite Heq. by eapply Hmem.
    + exfalso. apply Hnotin. rewrite <- Heq. by eapply Hmem.
    + f_equal. by eapply IH.
  - destruct i as [|i], j as [|j]; simpl in *; simplify_eq; try done.
    f_equal. by eapply IH.
Qed.

Lemma in_table_reap o : in_table (reap o) = true → in_table o = true.
Proof.
  unfold reap, in_table. destruct (status o) eqn:Hs; simpl; rewrite ?Hs; done.
Qed.

Lemma db_row_reap o : db_row (reap o) = db_row o.
Proof. unfold reap. by destruct (status o). Qed.

Lemma table_keys_reap os :
  NoDup (table_keys cls os) → NoDup (table_keys cls (reap <$> os)).
Proof.
  unfold table_keys. induction os as [|x os IH]; [done|].
  rewrite fmap_cons, !filter_cons.
  destruct (decide (in_table x = true)) as [Hx|Hx].
  - rewrite fmap_cons. intros [Hnotin Hnd]%NoDup_cons.
    destruct (decide (in_table (reap x) = true)) as [Hr|Hr]; [|by apply IH].
    rewrite fmap_cons. apply NoDup_cons. split; [|by apply IH].
    rewrite db_row_reap. intros Hin. apply Hnotin.
    apply list_elem_of_fmap in Hin as (y & -> & Hy).
    apply list_elem_of_filter in Hy as [Hyt Hy].
    apply list_elem_of_fmap in Hy as (z & -> & Hz).
    apply list_elem_of_fmap. exists z.
    rewrite db_row_reap. split; [done|]. apply list_elem_of_filter. split; [|done].
    by apply in_table_reap.
  - intros Hnd. rewrite decide_False; [by apply IH|].
    intros Hr. apply Hx. by apply in_table_reap.
Qed.
End Settled.

(** ** Updating twice *)

Section UpdateTwice.
Variable cls : MappedClass.

Lemma forallb_zip_lookup {A B} (f : A * B → bool) (l1 : list A) (l2 : list B) :
  forallb f (zip l1 l2) = true ↔
  ∀ i x y, l1 !! i = Some x → l2 !! i = Some y → f (x, y) = true.
Proof.
  revert l2. induction l1 as [|x l1 IH]; intros [|y l2]; simpl;
    try (split; [by intros _ [|?] ? ? ? ?|done]).
  rewrite andb_true_iff, IH. split.
  - intros [Hxy Hall] [|i] x' y' Hx Hy; simpl in *; simplify_eq; eauto.
  - intros Hall. split; [by apply (Hall 0)|].
    intros i x' y' Hx Hy. by apply (Hall (S i)).
Qed.

Lemma pk_tuple_ext (r1 r2 : dict) :
  pk_tuple cls r1 = pk_tuple cls r2 ↔
  ∀ k, k ∈ pk_columns cls → dict_get r1 k = dict_get r2 k.
Proof.
  unfold pk_tuple. induction (pk_columns cls) as [|c cols IH]; simpl.
  - split; [by intros _ k ?%elem_of_nil|done].
  - split.
    + intros [= Hc Hrest]. intros k [->|Hk]%elem_of_cons; [done|]. by apply IH.
    + intros Hall. f_equal; [apply Hall, list_elem_of_here|].
      apply IH. intros k Hk. by apply Hall, list_elem_of_further.
Qed.

(** The primary key of the row once the input has been assigned, when the
    input gives the primary key the row already has. *)
Lemma db_row_assign_all (o : instance) (d : dict) (k : string) :
  is_Some (d !! k) →
  dict_get (db_row o) k = dict_get d k →
  dict_get (db_row (assign_all cls o d)) k = dict_get d k
  ∧ dict_get (attrs (assign_all cls o d)) k = dict_get d k.
Proof.
  intros [v Hk] Hrow. split.
  - pose proof (assign_all_committed cls o d k) as Hc'.
    unfold db_row, dict_get at 1 in Hrow. unfold db_row, dict_get at 1.
    destruct (committed_state o !! k) as [x|] eqn:Hc.
    + rewrite (lookup_union_Some_l _ _ _ _ Hc) in Hrow.
      by rewrite (lookup_union_Some_l _ _ _ _ Hc').
    + rewrite (lookup_union_r _ _ _ Hc) in Hrow.
      destruct (hasattr cls k && bool_decide (is_Some (d !! k))).
      * rewrite (lookup_union_Some_l _ _ _ _ Hc'). by rewrite <- Hrow.
      * rewrite (lookup_union_r _ _ _ Hc'), assign_all_attrs.
        rewrite (lookup_union_Some_l _ _ _ _ Hk). unfold dict_get. by rewrite Hk.
  - unfold dict_get. by rewrite assign_all_attrs, (lookup_union_Some_l _ _ _ _ Hk), Hk.
Qed.

Lemma db_row_flushed (o : instance) : db_row (flushed cls o) = attrs o.
Proof. unfold db_row, flushed. simpl. by rewrite (left_id_L ∅ (∪)). Qed.

(** What the flush of an update leaves. *)
Lemma update_flush_facts (s s2 : Session) (a : nat) (d : dict) :
  in_table (deref s a) = true →
  session_flush cls (store s a (assign_all cls (deref s a) d)) = inr s2 →
  (∀ k, k ∈ pk_columns cls → is_Some (d !! k)) →
  (∀ k, k ∈ pk_columns cls → dict_get (db_row (deref s a)) k = dict_get d k) →
  (∀ b, settled (deref s2 b) = true)
  ∧ NoDup (table_keys cls (objects s2))
  ∧ (∀ b, in_table (deref s2 b) = true →
          (∀ k, k ∈ pk_columns cls → dict_get (db_row (deref s2 b)) k = dict_get d k) →
          b = a)
  ∧ (in_table (deref s2 a) = true →
     status (deref s a) = Persistent
     ∧ deref s2 a = (flush_object cls 0 (assign_all cls (deref s a) d)).1
     ∧ (is_dirty (assign_all cls (deref s a) d) = true → row_ok cls (deref s2 a) = true)).
Proof.
  intros Hin Hflush Hpk Hrow.
  pose proof (in_table_lt _ _ Hin) as Hlt.
  set (o' := assign_all cls (deref s a) d) in *.
  set (s1 := store s a o') in *.
  destruct (session_flush_inv _ _ _ Hflush) as [Hobj Hok].
  set (os := (flush_objects cls (serial s1) (objects s1)).1) in *.
  apply andb_true_iff in Hok as [Htouched Hnd]. apply bool_decide_eq_true in Hnd.
  assert (Hst' : status o' = status (deref s a)) by apply assign_all_status.
  assert (Ha1 : objects s1 !! a = Some o').
  { unfold s1, store. simpl. by apply list_lookup_insert_eq. }
  destruct (flush_objects_lookup cls (serial s1) _ _ _ Ha1) as [n Hosa]. fold os in Hosa.
  assert (Hoa : (flush_object cls n o').1 = (flush_object cls 0 o').1
                ∧ in_table (flush_object cls n o').1 = true
                ∧ ∀ k, k ∈ pk_columns cls →
                       dict_get (db_row (flush_object cls n o').1) k = dict_get d k).
  { assert (Hs : status o' = Persistent ∨ status o' = Deleted).
    { rewrite Hst'. unfold in_table in Hin. destruct (status (deref s a)); auto; done. }
    unfold flush_object.
    destruct Hs as [Hs|Hs]; rewrite Hs.
    - destruct (is_dirty o'); cbn [fst]; (split; [done|]); split.
      + done.
      + intros k Hk. rewrite db_row_flushed. by apply db_row_assign_all; auto.
      + unfold in_table. by rewrite Hs.
      + intros k Hk. by apply db_row_assign_all; auto.
    - cbn [fst]. split; [done|]. split; [unfold in_table; by rewrite Hs|].
      intros k Hk. by apply db_row_assign_all; auto. }
  destruct Hoa as (Hn0 & Hina & Hrowa).
  split; [|split; [|split]].
  - intros b. by eapply session_flush_settled.
  - rewrite Hobj. by apply table_keys_reap.
  - intros b Hinb Hrowb. unfold deref in Hinb, Hrowb. rewrite Hobj in Hinb, Hrowb.
    rewrite list_lookup_fmap in Hinb, Hrowb.
    destruct (os !! b) as [ob|] eqn:Hob; [|done]. simpl in Hinb, Hrowb.
    rewrite db_row_reap in Hrowb. apply in_table_reap in Hinb.
    eapply (table_keys_unique cls os b a); eauto.
    apply pk_tuple_ext. intros k Hk. by rewrite Hrowb, Hrowa.
  - intros Hin2.
    assert (Hd2 : deref s2 a = reap (flush_object cls n o').1).
    { unfold deref. by rewrite Hobj, list_lookup_fmap, Hosa. }
    rewrite Hd2 in Hin2 |- *.
    assert (Hpers : status (deref s a) = Persistent).
    { unfold in_table in Hin.
      destruct (status (deref s a)) eqn:Hs; try done.
      exfalso. unfold flush_object in Hin2. rewrite Hst' in Hin2.
      cbn [fst] in Hin2. unfold reap in Hin2. rewrite Hst' in Hin2.
      unfold in_table in Hin2. by simpl in Hin2. }
    split; [done|].
    assert (Hreap : reap (flush_object cls n o').1 = (flush_object cls n o').1).
    { unfold flush_object, reap. rewrite Hst', Hpers.
      destruct (is_dirty o'); simpl; [done|]. by rewrite Hst', Hpers. }
    rewrite Hreap. split; [done|]. intros Hdirty.
    apply (proj1 (forallb_zip_lookup _ _ _) Htouched a o' _ Ha1) in Hosa as Hrk.
    simpl in Hrk. unfold touched in Hrk. rewrite Hst', Hpers, Hdirty in Hrk. done.
Qed.

Lemma instance_eq (o1 o2 : instance) :
  attrs o1 = attrs o2 → committed_state o1 = committed_state o2 →
  key o1 = key o2 → status o1 = status o2 → o1 = o2.
Proof. destruct o1, o2. simpl. by intros -> -> -> ->. Qed.

Lemma not_dirty_clean (o : instance) : is_dirty o = false → committed_state o = ∅.
Proof.
  unfold is_dirty. intros Hd%bool_decide_eq_false.
  destruct (decide (committed_state o = ∅)); [done|]. by destruct Hd.
Qed.

(** Assigning to a settled entity the values it already has, and
    flushing, leaves the session as it was. *)
Lemma flush_again (s2 : Session) (a : nat) (d : dict) :
  (∀ b, settled (deref s2 b) = true) →
  NoDup (table_keys cls (objects s2)) →
  status (deref s2 a) = Persistent →
  d ∪ attrs (deref s2 a) = attrs (deref s2 a) →
  (is_dirty (assign_all cls (deref s2 a) d) = true →
   row_ok cls (deref s2 a) = true
   ∧ key (deref s2 a) = Some (pk_tuple cls (attrs (deref s2 a)))) →
  session_flush cls (store s2 a (assign_all cls (deref s2 a) d)) = inr s2.
Proof.
  intros Hsettled Hnd Hst Hsame Hdirty.
  set (o2 := deref s2 a) in *. set (o' := assign_all cls o2 d) in *.
  assert (Hlt : a < length (objects s2)).
  { apply in_table_lt. fold o2. unfold in_table. by rewrite Hst. }
  assert (Ha : objects s2 !! a = Some o2).
  { unfold o2, deref. destruct (objects s2 !! a) eqn:Hl; [done|].
    apply lookup_ge_None in Hl. lia. }
  assert (Hall : ∀ i o, objects s2 !! i = Some o → settled o = true).
  { intros i o Hi. specialize (Hsettled i). unfold deref in Hsettled.
    by rewrite Hi in Hsettled. }
  assert (Hclean : committed_state o2 = ∅).
  { apply not_dirty_clean. specialize (Hall a o2 Ha). unfold settled in Hall.
    rewrite Hst in Hall. by destruct (is_dirty o2). }
  assert (Hflushed : ∀ n, (flush_object cls n o').1 = o2).
  { intros n. unfold flush_object. unfold o'. rewrite assign_all_status. fold o'.
    rewrite Hst. destruct (is_dirty o') eqn:Hd; cbn [fst].
    - destruct (Hdirty eq_refl) as [_ Hkey]. apply instance_eq; simpl.
      + unfold o'. by rewrite assign_all_attrs.
      + done.
      + unfold o'. by rewrite assign_all_attrs, Hsame.
      + done.
    - apply instance_eq.
      + unfold o'. by rewrite assign_all_attrs.
      + by rewrite (not_dirty_clean _ Hd).
      + apply assign_all_key.
      + apply assign_all_status. }
  unfold session_flush. cbn [store objects serial].
  rewrite flush_objects_no_pending.
  2:{ apply Forall_insert.
      - apply Forall_lookup. intros i o Hi Hp. apply Hall in Hi.
        unfold settled in Hi. by rewrite Hp in Hi.
      - unfold o'. rewrite assign_all_status. by rewrite Hst. }
  rewrite list_fmap_insert, Hflushed.
  assert (Hid : (λ o, (flush_object cls (serial s2) o).1) <$> objects s2 = objects s2).
  { rewrite <- (list_fmap_id (objects s2)) at 2. apply Forall_fmap_ext, Forall_lookup.
    intros i o Hi. by rewrite flush_object_settled by eauto. }
  rewrite Hid, (list_insert_id (objects s2) a o2) by done.
  assert (Hok : constraints_ok cls (<[a:=o']> (objects s2)) (objects s2) = true).
  { unfold constraints_ok. apply andb_true_iff. split; [|by apply bool_decide_eq_true].
    apply forallb_zip_lookup. intros i x y Hx Hy. simpl.
    destruct (decide (i = a)) as [->|Hne].
    - rewrite list_lookup_insert_eq in Hx by done. injection Hx as <-.
      rewrite Ha in Hy. injection Hy as <-.
      unfold touched, o'. rewrite assign_all_status. fold o'. rewrite Hst.
      destruct (is_dirty o') eqn:Hd; [|done]. by destruct (Hdirty eq_refl) as [-> _].
    - rewrite list_lookup_insert_ne in Hx by done.
      by rewrite settled_not_touched by eauto. }
  rewrite Hok. f_equal.
  assert (Hreap : reap <$> objects s2 = objects s2).
  { rewrite <- (list_fmap_id (objects s2)) at 2. apply Forall_fmap_ext, Forall_lookup.
    intros i o Hi. apply reap_settled. eauto. }
  rewrite Hreap. by destruct s2.
Qed.
End UpdateTwice.

(** ** create_or_update *)

Section Dispatch.
Context {P : Type} `{!CrudParamsT P}.
Variable cs : CrudSettings.
Variable copy : bool.

Lemma pk_provided_spec (d : dict) :
  CrudBase.pk_provided cs d = true ↔ ∀ k, k ∈ primary_key cs → is_Some (d !! k).
Proof.
  unfold CrudBase.pk_provided. rewrite bool_decide_eq_true. split.
  - intros Hsub k Hk. apply elem_of_dom, Hsub. by apply elem_of_list_to_set.
  - intros Hall k Hk%elem_of_list_to_set. by apply elem_of_dom, Hall.
Qed.

Lemma create_or_update_run (d : dict) (w : World P) :
  CrudBase.create_or_update cs copy d w =
  if CrudBase.pk_provided cs d then CrudBase.update cs copy d w
  else CrudBase.create cs d w.
Proof. unfold CrudBase.create_or_update. by destruct (CrudBase.pk_provided cs d). Qed.
End Dispatch.

Section Dataclass.
Variable cs : CrudSettings.
Variable security : dict → list expr.

Lemma from_input_dict_step_inl (d : dict) (e : exn) (ks : list string) :
  foldl (λ (acc : exn + dict) k,
      match acc with
      | inl e => inl e
      | inr p' => match d !! k with
                  | Some v => inr (<[k := v]> p')
                  | None => inl KeyError
                  end
      end) (inl e) ks = inl e.
Proof. by induction ks. Qed.

(** [from_input_dict] stores in the parameters the value the input gives
    for each identity field. *)
Lemma dc_from_input_dict_spec (p p1 d : dict) :
  dc_from_input_dict cs p d = inr p1 →
  ∀ k, k ∈ primary_key cs → ∃ v, d !! k = Some v ∧ p1 !! k = Some v.
Proof.
  unfold dc_from_input_dict.
  assert (Hgen : ∀ ks p,
    foldl (λ (acc : exn + dict) k,
        match acc with
        | inl e => inl e
        | inr p' => match d !! k with
                    | Some v => inr (<[k := v]> p')
                    | None => inl KeyError
                    end
        end) (inr p) ks = inr p1 →
    (∀ k, k ∈ ks → ∃ v, d !! k = Some v ∧ p1 !! k = Some v)
    ∧ (∀ k v, d !! k = Some v → p !! k = Some v → p1 !! k = Some v)).
  { induction ks as [|c ks IH]; intros q Hq.
    - injection Hq as <-. split; [by intros k ?%elem_of_nil|done].
    - cbn [foldl] in Hq. destruct (d !! c) as [v|] eqn:Hc.
      + destruct (IH _ Hq) as [Hin Hkeep]. split.
        * intros k [->|Hk]%elem_of_cons; [|by apply Hin].
          exists v. split; [done|]. apply Hkeep; [done|]. apply lookup_insert_eq.
        * intros k v' Hd Hqk. apply Hkeep; [done|].
          destruct (decide (c = k)) as [->|Hne].
          -- rewrite lookup_insert_eq. congruence.
          -- by rewrite lookup_insert_ne.
      + by rewrite from_input_dict_step_inl in Hq. }
  intros Hp. by apply (Hgen _ _ Hp).
Qed.

Lemma dc_from_input_dict_again (q d : dict) :
  (∀ k, k ∈ primary_key cs → ∃ v, d !! k = Some v ∧ q !! k = Some v) →
  dc_from_input_dict cs q d = inr q.
Proof.
  unfold dc_from_input_dict. induction (primary_key cs) as [|c ks IH]; intros Hall.
  - done.
  - cbn [foldl]. destruct (Hall c (list_elem_of_here _ _)) as (v & -> & Hq).
    rewrite insert_id by done. apply IH. intros k Hk.
    by apply Hall, list_elem_of_further.
Qed.

Lemma eval_filter_primary_key (row p : dict) :
  eval_where row (dc_filter_primary_key cs p) = true ↔
  ∀ k, k ∈ primary_key cs → dict_get row k = dict_get p k.
Proof.
  unfold eval_where, dc_filter_primary_key.
  induction (primary_key cs) as [|c ks IH]; cbn [fmap list_fmap forallb eval_expr].
  - split; [by intros _ k ?%elem_of_nil|done].
  - rewrite andb_true_iff, bool_decide_eq_true, IH. split.
    + intros [Hc Hall] k [->|Hk]%elem_of_cons; auto.
    + intros Hall. split; [apply Hall, list_elem_of_here|].
      intros k Hk. by apply Hall, list_elem_of_further.
Qed.

Lemma eval_filter_one (row p : dict) :
  eval_where row (dc_filter_one cs security p) = true ↔
  (∀ k, k ∈ primary_key cs → dict_get row k = dict_get p k)
  ∧ eval_where row (security p) = true.
Proof.
  unfold dc_filter_one, dc_filter, eval_where at 1.
  rewrite forallb_app, andb_true_iff. fold (eval_where row (security p)).
  fold (eval_where row (dc_filter_primary_key cs p)).
  by rewrite eval_filter_primary_key.
Qed.
End Dataclass.

Section Idempotence.
Variable cs : CrudSettings.
Variable security : dict → list expr.
Variable copy : bool.

Lemma select_where_singleton (s : Session) (preds : list expr) (a : nat) :
  (∀ b, b ∈ select_where s preds → b = a) →
  select_where s preds ≠ [] →
  select_where s preds = [a].
Proof.
  intros Hall Hne.
  assert (Hnd : NoDup (select_where s preds)).
  { unfold select_where. apply NoDup_filter, NoDup_seq. }
  destruct (select_where s preds) as [|x [|y l]]; [done| |].
  - f_equal. apply Hall, list_elem_of_here.
  - exfalso. apply NoDup_cons in Hnd as [Hx _]. apply Hx.
    rewrite (Hall x), (Hall y); [apply list_elem_of_here| |].
    + apply list_elem_of_further, list_elem_of_here.
    + apply list_elem_of_here.
Qed.

(** An update through the parameters of the test suite, repeated. *)
Lemma update_twice (d : dict) (w w1 : World dict) (pk : dict) :
  CrudBase.update (CrudParamsT0 := DataclassParams cs security) cs copy d w
    = Returned pk w1 →
  select_where (ssn w1) (dc_filter_one cs security (params w1)) ≠ [] →
  ∃ t, CrudBase.update (CrudParamsT0 := DataclassParams cs security) cs copy d w1
       = Returned pk (logged t w1).
Proof.
  rewrite update_run. cbn [from_input_dict DataclassParams].
  destruct (dc_from_input_dict cs (params w) d) as [e|p1] eqn:Hp; [done|].
  pose proof (dc_from_input_dict_spec cs _ _ _ Hp) as Hp1.
  rewrite update_id_run. cbv zeta. cbn [params ssn filter_one DataclassParams].
  destruct (one _) as [e|a] eqn:Hone; [done|].
  apply select_where_one in Hone as (Hsel & Hin & Hev).
  apply eval_filter_one in Hev as [Hrow Hsec].
  destruct (session_flush _ _) as [e|s2] eqn:Hflush; [done|].
  destruct (identity (deref s2 a)) as [ident|] eqn:Hid; [|done].
  intros [= <- <-]. cbn [ssn params logged with_ssn]. intros Hne.
  assert (Hkeys : ∀ k, k ∈ pk_columns (Model cs) → is_Some (d !! k)).
  { intros k Hk. destruct (Hp1 k Hk) as (v & Hv & _). eauto. }
  assert (Hvals : ∀ k, k ∈ pk_columns (Model cs) → dict_get p1 k = dict_get d k).
  { intros k Hk. destruct (Hp1 k Hk) as (v & Hv & Hv1). unfold dict_get.
    by rewrite Hv, Hv1. }
  destruct (update_flush_facts (Model cs) (ssn w) s2 a d Hin Hflush Hkeys)
    as (Hsettled & Hnd & Huniq & Hfacts).
  { intros k Hk. rewrite <- Hvals by done. by apply Hrow. }
  assert (Hsel2 : select_where s2 (dc_filter_one cs security p1) = [a]).
  { apply select_where_singleton; [|done].
    intros b [Hinb Hevb]%elem_of_select_where.
    apply eval_filter_one in Hevb as [Hrowb _]. apply Huniq; [done|].
    intros k Hk. rewrite <- Hvals by done. by apply Hrowb. }
  assert (Hin2 : in_table (deref s2 a) = true).
  { apply (elem_of_select_where s2 (dc_filter_one cs security p1) a).
    rewrite Hsel2. by apply list_elem_of_singleton. }
  destruct (Hfacts Hin2) as (Hpers & Hd2 & Hrowok).
  set (o' := assign_all (Model cs) (deref (ssn w) a) d) in *.
  assert (Ho' : (flush_object (Model cs) 0 o').1
                = if is_dirty o' then flushed (Model cs) o' else o').
  { unfold flush_object. unfold o' at 1. rewrite assign_all_status, Hpers.
    by destruct (is_dirty o'). }
  rewrite Ho' in Hd2.
  assert (Hattrs2 : attrs (deref s2 a) = d ∪ attrs (deref (ssn w) a)).
  { rewrite Hd2. destruct (is_dirty o'); apply assign_all_attrs. }
  assert (Hst2 : status (deref s2 a) = Persistent).
  { rewrite Hd2. destruct (is_dirty o'); [done|].
    unfold o'. by rewrite assign_all_status. }
  assert (Hflush2 : session_flush (Model cs)
            (store s2 a (assign_all (Model cs) (deref s2 a) d)) = inr s2).
  { apply flush_again; try done.
    - rewrite Hattrs2. by rewrite (assoc_L (∪)), (idemp_L (∪)).
    - intros Hdirty2. apply bool_decide_eq_true in Hdirty2.
      apply map_choose in Hdirty2 as (k & x & Hkx).
      rewrite assign_all_committed in Hkx.
      assert (Hc2 : committed_state (deref s2 a) = ∅).
      { apply not_dirty_clean. specialize (Hsettled a). unfold settled in Hsettled.
        rewrite Hst2 in Hsettled. by destruct (is_dirty (deref s2 a)). }
      rewrite Hc2, lookup_empty in Hkx.
      destruct (hasattr (Model cs) k && bool_decide (is_Some (d !! k))) eqn:Hcond;
        [|done].
      assert (Hdirty1 : is_dirty o' = true).
      { apply bool_decide_eq_true. intros Hempty.
        pose proof (assign_all_committed (Model cs) (deref (ssn w) a) d k) as Hc1.
        fold o' in Hc1. rewrite Hempty, lookup_empty, Hcond in Hc1.
        by destruct (committed_state (deref (ssn w) a) !! k). }
      split; [by apply Hrowok|]. rewrite Hd2, Hdirty1. done. }
  rewrite update_run.
  cbn [from_input_dict DataclassParams params ssn log _filter_func logged with_ssn].
  rewrite (dc_from_input_dict_again cs p1 d) by done.
  rewrite update_id_run. cbv zeta.
  cbn [params ssn log _filter_func filter_one DataclassParams logged with_ssn].
  rewrite Hsel2. cbn [one]. rewrite Hflush2, Hid.
  eexists. unfold logged, with_ssn. cbn [ssn params log _filter_func].
  reflexivity.
Qed.
End Idempotence.

(** C7, as amended.  create_or_update creates exactly when some declared
    identity field is not a key of the input, and otherwise takes the update
    path: update, which stores the identity of the input in the parameters
    and proceeds as update_id.  With the parameters of the test suite, when
    a create_or_update with all identity fields has returned and the lookup
    by the parameters still finds an entity, so that the entity as updated
    still satisfies the security predicates of [filter()], the same call
    again returns the same result and leaves session and parameters as they
    were. *)
Theorem create_or_update_dispatch :
  (∀ (P : Type) (H : CrudParamsT P) (cs : CrudSettings) (copy : bool) (d : dict)
     (w : World P),
      (CrudBase.pk_provided cs d = false ↔
       ¬ ∀ k, k ∈ primary_key cs → is_Some (d !! k))
      ∧ (CrudBase.pk_provided cs d = false →
         CrudBase.create_or_update cs copy d w = CrudBase.create cs d w)
      ∧ (CrudBase.pk_provided cs d = true →
         CrudBase.create_or_update cs copy d w = CrudBase.update cs copy d w
         ∧ match from_input_dict (params w) d with
           | inr p' =>
               CrudBase.update cs copy d w =
               CrudBase.update_id cs copy d
                 {| ssn := ssn w; params := p';
                    _filter_func := _filter_func w; log := log w |}
           | inl e => CrudBase.update cs copy d w = Raised e w
           end))
  ∧ (∀ (cs : CrudSettings) (security : dict → list expr) (copy : bool) (d : dict)
       (w w1 : World dict) (pk : dict),
        CrudBase.pk_provided cs d = true →
        CrudBase.create_or_update (CrudParamsT0 := DataclassParams cs security)
          cs copy d w = Returned pk w1 →
        select_where (ssn w1) (dc_filter_one cs security (params w1)) ≠ [] →
        ∃ w2, CrudBase.create_or_update (CrudParamsT0 := DataclassParams cs security)
                cs copy d w1 = Returned pk w2
              ∧ ssn w2 = ssn w1 ∧ params w2 = params w1).
Proof.
  split.
  - intros P H cs copy d w. rewrite create_or_update_run. split; [|split].
    + rewrite <- (pk_provided_spec cs d). by destruct (CrudBase.pk_provided cs d).
    + by intros ->.
    + intros ->. split; [done|]. rewrite update_run. by destruct (from_input_dict _ _).
  - intros cs security copy d w w1 pk Hpk. rewrite !create_or_update_run, Hpk.
    intros Hrun Hne. destruct (update_twice cs security copy d w w1 pk Hrun Hne) as [t Ht].
    exists (logged t w1). by rewrite Ht.
Qed.

(** * The scenarios of [tests/test_cqrs_crud.py] *)

(** [test_crud_create]: one field, then an unknown column, then a primary
    key given by the caller. *)
Example test_crud_create_one_field :
  result_of (UserMutateApi.create create_one_field (new_api empty_session ∅)) = inr pk_1.
Proof. vm_compute. reflexivity. Qed.

Example test_crud_create_unknown_column :
  result_of (UserMutateApi.create unknown_column (new_api empty_session ∅)) = inl TypeError.
Proof. vm_compute. reflexivity. Qed.

Example test_crud_create_not_null :
  result_of (UserMutateApi.create ∅ (new_api empty_session ∅)) = inl IntegrityError.
Proof. vm_compute. reflexivity. Qed.

Example test_crud_create_duplicate_pk :
  result_of (UserMutateApi.create (<["id" := VInt 1]> create_one_field) api_for_user_1)
  = inl IntegrityError.
Proof. vm_compute. reflexivity. Qed.

(** [test_crud_update]: update_id, update, a change of primary key, and an
    update of a row that does not exist. *)
Example test_crud_update_id :
  result_of (UserMutateApi.update_id change_login api_for_user_1) = inr pk_1
  ∧ all_rows (ssn (world_of (UserMutateApi.update_id change_login api_for_user_1)))
    = [<["login" := VStr "john1"]> (<["id" := VInt 1]> {["is_admin" := VBool false]})].
Proof. split; vm_compute; reflexivity. Qed.

Example test_crud_update_404 :
  result_of (UserMutateApi.update {["id" := VInt 777]} api_for_user_1) = inl NoResultFound.
Proof. vm_compute. reflexivity. Qed.

(** [test_crud_delete] *)
Example test_crud_delete :
  result_of (UserMutateApi.delete api_for_user_1) = inr pk_1
  ∧ all_rows (ssn (world_of (UserMutateApi.delete api_for_user_1))) = [].
Proof. split; vm_compute; reflexivity. Qed.

(** * Counterexamples and instances *)

(** C7: the same create_or_update twice.  A caller who is not an admin makes
    user 1 an admin; the call returns the identity.  The same call again
    raises [NoResultFound]: the security filter of the parameters hides the
    row the first call updated. *)
Lemma create_or_update_not_idempotent :
  CrudBase.pk_provided User_settings make_admin = true
  ∧ result_of (UserMutateApi.create_or_update make_admin api_without_id) = inr pk_1
  ∧ result_of (UserMutateApi.create_or_update make_admin
                 (world_of (UserMutateApi.create_or_update make_admin api_without_id)))
    = inl NoResultFound.
Proof. repeat split; vm_compute; reflexivity. Qed.

(** C8: update_id with a key that is no attribute of the entity returns,
    and the entity carries the unknown attribute. *)
Lemma update_id_accepts_unknown_key :
  hasattr User "UNKNOWN" = false
  ∧ result_of (UserMutateApi.update_id unknown_column api_for_user_1) = inr pk_1
  ∧ getattr (deref (ssn (world_of (UserMutateApi.update_id unknown_column api_for_user_1))) 0)
            "UNKNOWN" = VStr "INVALID".
Proof. repeat split; vm_compute; reflexivity. Qed.

(** C9: update changes the parameters of the call: their [id] is [None]
    before and 1 after. *)
Lemma update_changes_params :
  result_of (UserMutateApi.update update_login api_without_id) = inr pk_1
  ∧ dict_get (params api_without_id) "id" = VNone
  ∧ dict_get (params (world_of (UserMutateApi.update update_login api_without_id))) "id"
    = VInt 1
  ∧ params (world_of (UserMutateApi.update update_login api_without_id))
    ≠ params api_without_id.
Proof.
  split; [|split; [|split]]; try (vm_compute; reflexivity).
  intros Heq. apply (f_equal (λ p : dict, dict_get p "id")) in Heq.
  vm_compute in Heq. discriminate.
Qed.

(** C4 at the delete of [test_crud_delete]. *)
Lemma delete_returns_prior_identity_witness :
  UserMutateApi.delete api_for_user_1
    = Returned pk_1 (world_of (UserMutateApi.delete api_for_user_1))
  ∧ ∃ (a : nat) (ident : list value),
      select_where (ssn api_for_user_1) (filter_one (CrudParamsT := UserIdCrudParams) (params api_for_user_1)) = [a]
      ∧ in_table (deref (ssn api_for_user_1) a) = true
      ∧ identity (deref (ssn api_for_user_1) a) = Some ident
      ∧ pk_1 = dict_of_pairs (zip (primary_key User_settings) ident)
      ∧ in_table (deref (ssn (world_of (UserMutateApi.delete api_for_user_1))) a) = false
      ∧ ∃ seen,
          log (world_of (UserMutateApi.delete api_for_user_1)) =
          log api_for_user_1 ++ [SsnQuery (filter_one (CrudParamsT := UserIdCrudParams) (params api_for_user_1));
                                 Presave None (Some (PrevInstance a)) seen;
                                 SsnRefresh a; SsnDelete a; SsnFlush].
Proof.
  split; [vm_compute; reflexivity|].
  apply (delete_returns_prior_identity (CrudParamsT0 := UserIdCrudParams) User_settings).
  vm_compute. reflexivity.
Defined.

(** C5 at the update_id of [test_crud_update]: only [login] is given. *)
Lemma update_id_is_partial_witness :
  UserMutateApi.update_id change_login api_for_user_1
    = Returned pk_1 (world_of (UserMutateApi.update_id change_login api_for_user_1))
  ∧ ∃ a : nat,
      select_where (ssn api_for_user_1) (filter_one (CrudParamsT := UserIdCrudParams) (params api_for_user_1)) = [a]
      ∧ (∀ f, change_login !! f = None →
              attrs (deref (ssn (world_of (UserMutateApi.update_id change_login
                                             api_for_user_1))) a) !! f
              = attrs (deref (ssn api_for_user_1) a) !! f
              ∧ getattr (deref (ssn (world_of (UserMutateApi.update_id change_login
                                                 api_for_user_1))) a) f
                = getattr (deref (ssn api_for_user_1) a) f)
      ∧ (∀ f v, change_login !! f = Some v →
                getattr (deref (ssn (world_of (UserMutateApi.update_id change_login
                                                 api_for_user_1))) a) f = v).
Proof.
  split; [vm_compute; reflexivity|].
  apply (update_id_is_partial (CrudParamsT0 := UserIdCrudParams) User_settings false
           change_login api_for_user_1 _ pk_1).
  vm_compute. reflexivity.
Defined.


(** C7 at the create_or_update of [test_crud_update], by an admin. *)
Lemma create_or_update_dispatch_witness :
  CrudBase.pk_provided User_settings update_login = true
  ∧ ∃ w2, UserMutateApi.create_or_update update_login
            (world_of (UserMutateApi.create_or_update update_login api_without_id))
          = Returned pk_1 w2
          ∧ ssn w2 = ssn (world_of (UserMutateApi.create_or_update update_login
                                      api_without_id))
          ∧ params w2 = params (world_of (UserMutateApi.create_or_update update_login
                                            api_without_id)).
Proof.
  split; [vm_compute; reflexivity|].
  apply (proj2 create_or_update_dispatch User_settings UserIdCrudParams_filter false
           update_login api_without_id).
  - vm_compute. reflexivity.
  - vm_compute. reflexivity.
  - vm_compute. discriminate.
Defined.


(** C8 at the create of [test_crud_create] with the key [UNKNOWN]. *)
Lemma unknown_key_create_raises_witness :
  (∃ k, is_Some (unknown_column !! k) ∧ hasattr (Model User_settings) k = false)
  ∧ UserMutateApi.create unknown_column api_for_user_1 = Raised TypeError api_for_user_1.
Proof.
  assert (Hk : ∃ k, is_Some (unknown_column !! k)
                    ∧ hasattr (Model User_settings) k = false).
  { exists "UNKNOWN". split; [exists (VStr "INVALID")|]; vm_compute; reflexivity. }
  assert (Hall : ∀ k, is_Some (unknown_column !! k)
                      → hasattr (Model User_settings) k = false).
  { intros k [v Hv]. unfold unknown_column in Hv.
    apply lookup_singleton_Some in Hv as [<- _].
    vm_compute. reflexivity. }
  split; [exact Hk|].
  exact (proj2 (proj2 (unknown_key_create_raises (P := dict) User_settings
                         unknown_column api_for_user_1 Hk) Hall)).
Defined.

(** C9 at the update_id and the delete of the test suite. *)
Lemma params_only_changed_by_update_witness :
  params (world_of (UserMutateApi.update_id change_login api_for_user_1))
    = params api_for_user_1
  ∧ params (world_of (UserMutateApi.delete api_for_user_1)) = params api_for_user_1.
Proof.
  split.
  - exact (proj1 (params_only_changed_by_update (CrudParamsT0 := UserIdCrudParams)
                    (engine := empty_engine) User_settings false)
             (OpUpdateId change_login) api_for_user_1).
  - exact (proj1 (params_only_changed_by_update (CrudParamsT0 := UserIdCrudParams)
                    (engine := empty_engine) User_settings false)
             OpDelete api_for_user_1).
Defined.

(** * Further properties of the handlers *)

Section CreateInstance.
Context {P : Type} `{!CrudParamsT P}.
Variable cs : CrudSettings.

Lemma _create_instance_run (d : dict) (w : World P) :
  CrudBase._create_instance cs d w =
  match declarative_constructor (Model cs) d with
  | inl e => Raised e w
  | inr o =>
      Returned (alloc (ssn w) o).1
        (logged [Presave (Some (alloc (ssn w) o).1) None None]
                (with_ssn (alloc (ssn w) o).2 w))
  end.
Proof. crud_run. Qed.

Lemma deref_alloc_old (s : Session) (o : instance) (b : nat) :
  b < length (objects s) → deref (alloc s o).2 b = deref s b.
Proof. intros Hb. unfold deref, alloc. simpl. by rewrite lookup_app_l. Qed.

Lemma deref_alloc_new (s : Session) (o : instance) :
  deref (alloc s o).2 (alloc s o).1 = o.
Proof. unfold deref, alloc. simpl. by rewrite lookup_app_r, Nat.sub_diag. Qed.

(** X1.  The instance [_create_instance] hands to the hook and returns is a
    new object that carries exactly the input dictionary as its attributes:
    it is not in the session, has no identity, and every object that
    existed is as it was; the hook has been called once, with [new] the
    instance and no [prev]. *)
Theorem create_instance_is_fresh (d : dict) (w w1 : World P) (a : nat) :
  CrudBase._create_instance cs d w = Returned a w1 →
  a = length (objects (ssn w))
  ∧ attrs (deref (ssn w1) a) = d
  ∧ identity (deref (ssn w1) a) = None
  ∧ status (deref (ssn w1) a) = Transient
  ∧ (∀ b, b < length (objects (ssn w)) → deref (ssn w1) b = deref (ssn w) b)
  ∧ serial (ssn w1) = serial (ssn w)
  ∧ params w1 = params w
  ∧ log w1 = log w ++ [Presave (Some a) None None].
Proof.
  rewrite _create_instance_run.
  pose proof (declarative_constructor_spec (Model cs) d) as Hc.
  destruct (declarative_constructor (Model cs) d) as [e|o]; [done|].
  destruct Hc as (_ & Hattrs & Hkey & Hst). intros Hret.
  assert (Ha : a = (alloc (ssn w) o).1) by (by injection Hret as <- _).
  assert (Hw : w1 = logged [Presave (Some (alloc (ssn w) o).1) None None]
                      (with_ssn (alloc (ssn w) o).2 w)) by (by injection Hret as _ <-).
  subst a w1. cbn [ssn logged with_ssn log params]. rewrite deref_alloc_new.
  split; [done|]. split; [done|]. split; [done|]. split; [done|].
  split; [|done]. intros b Hb. by apply deref_alloc_old.
Qed.
End CreateInstance.

Section CreateRoundTrip.
Context {P : Type} `{!CrudParamsT P}.
Variable cs : CrudSettings.

Lemma assign_pk_other (cls : MappedClass) (n : Z) (o : instance) (k : string) :
  k ∉ pk_columns cls → attrs (assign_pk cls n o).1 !! k = attrs o !! k.
Proof.
  intros Hk. unfold assign_pk. destruct (forallb _ _); [done|]. cbn [fst attrs].
  induction (pk_columns cls) as [|c cols IH]; cbn [foldr]; [done|].
  apply not_elem_of_cons in Hk as [Hne Hk].
  destruct (bool_decide _); [|by apply IH].
  rewrite lookup_insert_ne by done. by apply IH.
Qed.

Lemma assign_pk_status (cls : MappedClass) (n : Z) (o : instance) :
  status (assign_pk cls n o).1 = status o.
Proof. unfold assign_pk. by destruct (forallb _ _). Qed.

Lemma dict_of_pairs_zip_dom (ks : list string) (f : string → value) :
  dom (dict_of_pairs (zip ks (f <$> ks))) = list_to_set ks.
Proof.
  unfold dict_of_pairs.
  assert (Hgen : ∀ acc : dict,
    dom (foldl (λ m (kv : string * value), <[kv.1 := kv.2]> m) acc (zip ks (f <$> ks)))
    = list_to_set ks ∪ dom acc).
  { induction ks as [|c ks IH]; intros acc.
    - simpl. by rewrite (left_id_L ∅ (∪)).
    - cbn [fmap list_fmap zip zip_with foldl fst snd]. rewrite IH, dom_insert_L.
      rewrite list_to_set_cons, (assoc_L (∪)). f_equal. apply (comm_L (∪)). }
  rewrite Hgen, dom_empty_L. apply (right_id_L ∅ (∪)).
Qed.

Lemma objects_lookup_deref (s : Session) (b : nat) :
  b < length (objects s) → objects s !! b = Some (deref s b).
Proof.
  intros Hb. unfold deref. destruct (objects s !! b) eqn:Hl; [done|].
  apply lookup_ge_None in Hl. lia.
Qed.

(** After a flush no two rows of the table have the same primary key. *)
Lemma flushed_table_unique (cls : MappedClass) (s s' : Session) (a b : nat) :
  session_flush cls s = inr s' →
  in_table (deref s' a) = true → in_table (deref s' b) = true →
  (∀ k, k ∈ pk_columns cls →
        dict_get (db_row (deref s' b)) k = dict_get (db_row (deref s' a)) k) →
  b = a.
Proof.
  intros Hflush Ha Hb Hsame.
  destruct (session_flush_inv _ _ _ Hflush) as [Hobj Hok].
  apply andb_true_iff in Hok as [_ Hnd]. apply bool_decide_eq_true in Hnd.
  apply (table_keys_reap cls) in Hnd. rewrite <- Hobj in Hnd.
  apply (table_keys_unique cls (objects s') b a (deref s' b) (deref s' a));
    try done.
  - apply objects_lookup_deref. by apply in_table_lt.
  - apply objects_lookup_deref. by apply in_table_lt.
  - by apply pk_tuple_ext.
Qed.

(** X2.  A create that returns has inserted one row, at a new address: the
    row is persistent and clean, holds every field of the input (a primary
    key column the input leaves out or gives as [None] gets its value from
    the sequence), has no [None] in its primary key, and its primary key is
    what create returns, under exactly the identity-field names.  Looking
    the table up by the returned identity finds that row and no other. *)
Theorem create_round_trip (d : dict) (w w' : World P) (pk : dict) :
  CrudBase.create cs d w = Returned pk w' →
  let a := length (objects (ssn w)) in
  let row := deref (ssn w') a in
  status row = Persistent
  ∧ committed_state row = ∅
  ∧ (∀ k v, d !! k = Some v → v ≠ VNone → getattr row k = v)
  ∧ (∀ k, k ∉ primary_key cs → attrs row !! k = d !! k)
  ∧ (∀ k, k ∈ primary_key cs → getattr row k ≠ VNone ∧ pk !! k = Some (getattr row k))
  ∧ dom pk = list_to_set (primary_key cs)
  ∧ select_where (ssn w') ((λ k, ColEq k (dict_get pk k)) <$> primary_key cs) = [a].
Proof.
  intros Hrun a row. rewrite create_run in Hrun.
  pose proof (declarative_constructor_spec (Model cs) d) as Hc.
  destruct (declarative_constructor (Model cs) d) as [e|o]; [done|].
  destruct Hc as (_ & Hattrs & _ & Hst). cbv zeta in Hrun.
  destruct (session_flush _ _) as [e|s3] eqn:Hflush; [done|].
  destruct (session_flush_deref _ _ _ (alloc (ssn w) o).1 Hflush) as [n Hd3].
  destruct (session_flush_inv _ _ _ Hflush) as [Hobj Hok].
  apply andb_true_iff in Hok as [Htouched _].
  destruct (created_object_pending (ssn w) o Hst) as [Hnew Ha].
  set (s2 := session_add (alloc (ssn w) o).2 (alloc (ssn w) o).1) in *.
  assert (Hlt : (alloc (ssn w) o).1 < length (objects s2)).
  { destruct (decide ((alloc (ssn w) o).1 < length (objects s2))); [done|].
    rewrite deref_out_of_range in Hnew by lia. done. }
  pose proof (objects_lookup_deref s2 _ Hlt) as Hl2. rewrite Hnew in Hl2.
  destruct (flush_objects_lookup (Model cs) (serial s2) _ _ _ Hl2) as [n' Hos].
  apply (proj1 (forallb_zip_lookup _ _ _) Htouched _ _ _ Hl2) in Hos as Hrowok.
  cbn [fst snd touched set_status status implb] in Hrowok.
  assert (Hd3' : deref s3 (alloc (ssn w) o).1
                 = (flush_object (Model cs) n' (set_status Pending o)).1).
  { unfold deref. rewrite Hobj, list_lookup_fmap, Hos. cbn [fmap option_fmap option_map default].
    unfold flush_object. cbn [status set_status].
    destruct (assign_pk _ _ _). done. }
  clear Hd3 n.
  rewrite Ha in Hd3'. fold a in Hd3'.
  unfold flush_object in Hd3'. cbn [status set_status] in Hd3'.
  pose proof (assign_pk_keeps (Model cs) n' (set_status Pending o)) as Hkeep.
  pose proof (assign_pk_other (Model cs) n' (set_status Pending o)) as Hother.
  unfold flush_object in Hrowok. cbn [status set_status] in Hrowok.
  destruct (assign_pk _ _ _) as [o1 n1]. cbn [fst snd] in *.
  rewrite Ha in Hrun. fold a in Hrun. unfold identity in Hrun. rewrite Hd3' in Hrun.
  cbn [flushed key] in Hrun.
  assert (Hpk : pk = dict_of_pairs (zip (primary_key cs) (pk_tuple (Model cs) (attrs o1))))
    by (by injection Hrun as <- _).
  assert (Hw' : ssn w' = s3) by (by injection Hrun as _ <-).
  assert (Hrow : row = flushed (Model cs) o1).
  { unfold row. by rewrite Hw'. }
  clearbody row. subst row.
  assert (Hnonnull : ∀ k, k ∈ primary_key cs → dict_get (attrs o1) k ≠ VNone).
  { intros k Hk. unfold row_ok in Hrowok.
    rewrite forallb_app in Hrowok. apply andb_true_iff in Hrowok as [Hpkok _].
    rewrite forallb_forall in Hpkok. apply list_elem_of_In in Hk.
    specialize (Hpkok _ Hk). by apply bool_decide_eq_true in Hpkok. }
  assert (Hlook : ∀ k, k ∈ primary_key cs → pk !! k = Some (dict_get (attrs o1) k)).
  { intros k Hk. rewrite Hpk. unfold pk_tuple, primary_key in *.
    by rewrite dict_of_pairs_zip. }
  split; [done|]. split; [done|]. split; [|split; [|split; [|split]]].
  - intros k v Hk Hv. unfold getattr, dict_get. cbn [flushed attrs].
    by rewrite (Hkeep k v ltac:(by simpl; rewrite Hattrs) Hv).
  - intros k Hk. cbn [flushed attrs]. rewrite Hother by done. simpl. by rewrite Hattrs.
  - intros k Hk. unfold getattr. cbn [flushed attrs]. auto.
  - rewrite Hpk. unfold pk_tuple. apply dict_of_pairs_zip_dom.
  - rewrite Hw'.
    assert (Hina : in_table (deref s3 a) = true) by (by rewrite Hd3').
    assert (Hmatch : ∀ b, eval_where (db_row (deref s3 b))
                            ((λ k, ColEq k (dict_get pk k)) <$> primary_key cs) = true ↔
                          ∀ k, k ∈ primary_key cs →
                               dict_get (db_row (deref s3 b)) k = dict_get pk k).
    { intros b. apply (eval_filter_primary_key cs). }
    assert (Hrowa : ∀ k, k ∈ primary_key cs →
                         dict_get (db_row (deref s3 a)) k = dict_get pk k).
    { intros k Hk. rewrite Hd3', db_row_flushed. unfold dict_get at 2.
      by rewrite (Hlook k Hk). }
    apply select_where_singleton.
    + intros b [Hinb Hevb]%elem_of_select_where.
      apply (flushed_table_unique (Model cs) _ _ a b Hflush Hina Hinb).
      intros k Hk. rewrite (proj1 (Hmatch b) Hevb k Hk). symmetry. by apply Hrowa.
    + intros Hnil.
      assert (Hain : a ∈ select_where s3 ((λ k, ColEq k (dict_get pk k)) <$> primary_key cs)).
      { apply elem_of_select_where. split; [done|]. by apply Hmatch. }
      rewrite Hnil in Hain. by apply elem_of_nil in Hain.
Qed.
End CreateRoundTrip.

Section HookArguments.
Context {P : Type} `{!CrudParamsT P}.
Variable cs : CrudSettings.
Variable copy : bool.

(** X3.  The arguments of the pre-save hook tell the operation, as the
    docstring of the hook says: on create [new] is given and [prev] is not,
    on update_id both are given ([prev] being a history proxy of [new]), on
    delete only [prev] is given, the entity itself.  This holds of every
    call of the hook in every run, returning or raising. *)
Theorem hook_arguments_tell_operation (op : lifecycle_op) (w : World P) :
  ∃ t : list event,
    log (world_of (run_op cs copy op w)) = log w ++ t
    ∧ forallb (hook_arguments_of op) t = true.
Proof.
  destruct op as [d|d|]; simpl.
  - rewrite create_run. cbv zeta. crud_cases; simpl world_of;
      rewrite ?log_logged, ?log_with_ssn;
      first [ eexists; split; [reflexivity|]; reflexivity
            | exists []; rewrite app_nil_r; split; done ].
  - rewrite update_id_run. cbv zeta. crud_cases; simpl world_of;
      rewrite ?log_logged, ?log_with_ssn;
      eexists; (split; [reflexivity|]); cbn;
      rewrite ?bool_decide_eq_true_2 by done; reflexivity.
  - rewrite delete_run. cbv zeta. crud_cases; simpl world_of;
      rewrite ?log_logged, ?log_with_ssn;
      eexists; (split; [reflexivity|]); reflexivity.
Qed.
End HookArguments.

Section Frame.
Context {P : Type} `{!CrudParamsT P}.
Variable cs : CrudSettings.
Variable copy : bool.

Lemma session_add_deref_ne (s : Session) (a b : nat) :
  a ≠ b → deref (session_add s a) b = deref s b.
Proof.
  intros Hne. unfold session_add. destruct (status (deref s a)); try done.
  by apply deref_store_ne.
Qed.

Lemma session_delete_deref_ne (s : Session) (a b : nat) :
  a ≠ b → deref (session_delete s a) b = deref s b.
Proof.
  intros Hne. unfold session_delete. destruct (status (deref s a)); try done.
  by apply deref_store_ne.
Qed.

Lemma session_refresh_deref_ne (s : Session) (a b : nat) :
  a ≠ b → deref (session_refresh s a) b = deref s b.
Proof.
  intros Hne. unfold session_refresh. destruct (in_table (deref s a)); [|done].
  by apply deref_store_ne.
Qed.

(** X4.  A create, update_id or delete that returns has changed no
    attribute of any other entity: an object that existed before the call,
    is not the one the operation resolves and is not waiting for its INSERT
    has after the call the attributes it had before. *)
Theorem other_entities_keep_attrs (op : lifecycle_op) (w w' : World P) (pk : dict)
    (b : nat) :
  run_op cs copy op w = Returned pk w' →
  b < length (objects (ssn w)) →
  b ∉ resolved_by op w →
  status (deref (ssn w) b) ≠ Pending →
  attrs (deref (ssn w') b) = attrs (deref (ssn w) b).
Proof.
  intros Hrun Hb Hres Hst. destruct op as [d|d|]; cbn [run_op resolved_by] in *.
  - rewrite create_run in Hrun.
    destruct (declarative_constructor (Model cs) d) as [e|o]; [done|]. cbv zeta in Hrun.
    assert (Hne : (alloc (ssn w) o).1 ≠ b) by (unfold alloc; simpl; lia).
    assert (Hsame : deref (session_add (alloc (ssn w) o).2 (alloc (ssn w) o).1) b
                    = deref (ssn w) b).
    { rewrite session_add_deref_ne by done. by apply deref_alloc_old. }
    destruct (session_flush _ _) as [e|s3] eqn:Hflush; [done|].
    destruct (identity _); [|done]. injection Hrun as _ <-.
    cbn [ssn logged with_ssn].
    rewrite (flush_keeps_attrs _ _ _ b Hflush); by rewrite Hsame.
  - rewrite update_id_run in Hrun. cbv zeta in Hrun.
    destruct (one _) as [e|a] eqn:Hone; [done|].
    apply one_inr in Hone. rewrite Hone in Hres.
    assert (Hne : a ≠ b) by (intros ->; apply Hres, list_elem_of_here).
    destruct (session_flush _ _) as [e|s2] eqn:Hflush; [done|].
    destruct (identity _); [|done]. injection Hrun as _ <-.
    cbn [ssn logged with_ssn].
    rewrite (flush_keeps_attrs _ _ _ b Hflush); by rewrite deref_store_ne.
  - rewrite delete_run in Hrun. cbv zeta in Hrun.
    destruct (one _) as [e|a] eqn:Hone; [done|].
    apply one_inr in Hone. rewrite Hone in Hres.
    assert (Hne : a ≠ b) by (intros ->; apply Hres, list_elem_of_here).
    destruct (identity _); [|done].
    assert (Hsame : deref (session_delete (session_refresh (ssn w) a) a) b
                    = deref (ssn w) b).
    { by rewrite session_delete_deref_ne, session_refresh_deref_ne. }
    destruct (session_flush _ _) as [e|s2] eqn:Hflush; [done|].
    injection Hrun as _ <-. cbn [ssn logged with_ssn].
    rewrite (flush_keeps_attrs _ _ _ b Hflush); by rewrite Hsame.
Qed.
End Frame.

Section AfterDelete.
Context {P : Type} `{!CrudParamsT P}.
Variable cs : CrudSettings.
Variable copy : bool.

(** What a delete leaves of a session that had nothing pending. *)
Lemma delete_session (w w' : World P) (pk : dict) :
  (∀ b, settled (deref (ssn w) b) = true) →
  CrudBase.delete cs w = Returned pk w' →
  ∃ a, select_where (ssn w) (filter_one (params w)) = [a]
       ∧ params w' = params w
       ∧ deref (ssn w') a = set_status Detached (deref (ssn w) a)
       ∧ ∀ b, b ≠ a → deref (ssn w') b = deref (ssn w) b.
Proof.
  intros Hsettled. rewrite delete_run. cbv zeta.
  destruct (one _) as [e|a] eqn:Hone; [done|].
  apply select_where_one in Hone as (Hsel & Hin & _).
  destruct (identity _) as [ident|]; [|done].
  destruct (session_flush _ _) as [e|s2] eqn:Hflush; [done|].
  intros Hret. assert (Hw' : w' = logged
      [SsnQuery (filter_one (params w));
       Presave None (Some (PrevInstance a)) (Some (prev_view (ssn w) (PrevInstance a)));
       SsnRefresh a; SsnDelete a; SsnFlush] (with_ssn s2 w)) by (by injection Hret as _ <-).
  subst w'. cbn [ssn params logged with_ssn]. exists a. split; [done|]. split; [done|].
  pose proof (in_table_lt _ _ Hin) as Hlt.
  pose proof (Hsettled a) as Hsa.
  assert (Hpers : status (deref (ssn w) a) = Persistent).
  { unfold settled in Hsa. unfold in_table in Hin.
    by destruct (status (deref (ssn w) a)). }
  assert (Hclean : committed_state (deref (ssn w) a) = ∅).
  { apply not_dirty_clean. unfold settled in Hsa. rewrite Hpers in Hsa.
    by destruct (is_dirty (deref (ssn w) a)). }
  assert (Hrefresh : session_refresh (ssn w) a = ssn w).
  { unfold session_refresh. rewrite Hin.
    assert (Ho : {| attrs := db_row (deref (ssn w) a); committed_state := ∅;
                    key := key (deref (ssn w) a); status := status (deref (ssn w) a) |}
                 = deref (ssn w) a).
    { apply instance_eq; simpl; try done.
      unfold db_row. by rewrite Hclean, (left_id_L ∅ (∪)). }
    rewrite Ho. unfold store. rewrite list_insert_id by (by apply objects_lookup_deref).
    by destruct (ssn w). }
  rewrite Hrefresh in Hflush.
  assert (Hs1a : deref (session_delete (ssn w) a) a = set_status Deleted (deref (ssn w) a)).
  { unfold session_delete. rewrite Hpers. by apply deref_store. }
  split.
  - destruct (session_flush_deref _ _ _ a Hflush) as [n ->]. rewrite Hs1a.
    unfold flush_object. cbn [status set_status fst]. unfold reap. cbn [status set_status].
    by destruct (deref (ssn w) a).
  - intros b Hne. destruct (session_flush_deref _ _ _ b Hflush) as [n ->].
    rewrite session_delete_deref_ne by done.
    rewrite flush_object_settled by done. by apply reap_settled.
Qed.

(** X6.  Once a delete has returned (from a session with nothing pending)
    the same handler no longer resolves anything: a second delete, and any
    update_id, raises [NoResultFound] and leaves the session as it is. *)
Theorem delete_then_not_found (w w' : World P) (pk : dict) :
  (∀ b, settled (deref (ssn w) b) = true) →
  CrudBase.delete cs w = Returned pk w' →
  select_where (ssn w') (filter_one (params w')) = []
  ∧ CrudBase.delete cs w'
    = Raised NoResultFound (logged [SsnQuery (filter_one (params w'))] w')
  ∧ ∀ d, CrudBase.update_id cs copy d w'
         = Raised NoResultFound (logged [SsnQuery (filter_one (params w'))] w').
Proof.
  intros Hsettled Hrun.
  destruct (delete_session w w' pk Hsettled Hrun) as (a & Hsel & Hp & Ha & Hothers).
  assert (Hnil : select_where (ssn w') (filter_one (params w')) = []).
  { apply elem_of_nil_inv. intros b [Hin Hev]%elem_of_select_where.
    destruct (decide (b = a)) as [->|Hne].
    - rewrite Ha in Hin. done.
    - rewrite (Hothers b Hne) in Hin, Hev. rewrite Hp in Hev.
      assert (Hb : b ∈ select_where (ssn w) (filter_one (params w))).
      { by apply elem_of_select_where. }
      rewrite Hsel in Hb. by apply list_elem_of_singleton in Hb. }
  split; [done|].
  split; [|intros d]; [rewrite delete_run|rewrite update_id_run]; cbv zeta;
    by rewrite Hnil.
Qed.
End AfterDelete.

Section EmptyUpdate.
Context {P : Type} `{!CrudParamsT P}.
Variable cs : CrudSettings.
Variable copy : bool.

Lemma assign_all_empty (cls : MappedClass) (o : instance) : assign_all cls o ∅ = o.
Proof. unfold assign_all. by rewrite map_fold_empty. Qed.

(** X7.  update_id with an empty input dictionary assigns nothing: it is the
    lookup, the hook and a flush of the session as it stands.  The entity
    keeps its attributes, and when it had no pending change of its own the
    call returns the identity it already had. *)
Theorem update_id_empty_input (w w' : World P) (pk : dict) :
  CrudBase.update_id cs copy ∅ w = Returned pk w' →
  ∃ a, select_where (ssn w) (filter_one (params w)) = [a]
       ∧ session_flush (Model cs) (ssn w) = inr (ssn w')
       ∧ attrs (deref (ssn w') a) = attrs (deref (ssn w) a)
       ∧ (is_dirty (deref (ssn w) a) = false →
          status (deref (ssn w) a) = Persistent →
          deref (ssn w') a = deref (ssn w) a
          ∧ ∃ ident, identity (deref (ssn w) a) = Some ident
                     ∧ pk = dict_of_pairs (zip (primary_key cs) ident)).
Proof.
  rewrite update_id_run. cbv zeta.
  destruct (one _) as [e|a] eqn:Hone; [done|].
  apply select_where_one in Hone as (Hsel & Hin & _).
  pose proof (in_table_lt _ _ Hin) as Hlt.
  rewrite assign_all_empty.
  assert (Hstore : store (ssn w) a (deref (ssn w) a) = ssn w).
  { unfold store. rewrite list_insert_id by (by apply objects_lookup_deref).
    by destruct (ssn w). }
  rewrite Hstore.
  destruct (session_flush _ _) as [e|s2] eqn:Hflush; [done|].
  destruct (identity (deref s2 a)) as [ident|] eqn:Hid; [|done].
  intros Hret.
  assert (Hpk : pk = dict_of_pairs (zip (primary_key cs) ident))
    by (by injection Hret as <- _).
  assert (Hw' : ssn w' = s2) by (by injection Hret as _ <-).
  rewrite Hw'. exists a. split; [done|]. split; [done|]. split.
  - apply (flush_keeps_attrs _ _ _ a Hflush).
    unfold in_table in Hin. by destruct (status (deref (ssn w) a)).
  - intros Hclean Hpers.
    assert (Hsame : deref s2 a = deref (ssn w) a).
    { destruct (session_flush_deref _ _ _ a Hflush) as [n ->].
      assert (Hs : settled (deref (ssn w) a) = true).
      { unfold settled. by rewrite Hpers, Hclean. }
      rewrite flush_object_settled by done. by apply reap_settled. }
    split; [done|]. exists ident. by rewrite <- Hsame.
Qed.
End EmptyUpdate.

Section ReadResults.
Context {P : Type} `{!CrudParamsT P} {engine : QueryEngine}.

Lemma logged_execute_events (done_ : list (nat * Select)) :
  forallb is_execute (execute_events done_) = true.
Proof. by induction done_ as [|[l s] rest IH]. Qed.

(** X8.  The read methods of both versions of [QueryApi] only execute
    statements: whichever method runs and whatever it returns or raises,
    the session and the parameters are as before, and every call added to
    the log is a statement execution (no add, delete, flush or hook). *)
Theorem read_methods_only_execute (m : read_method) (qo : QueryObject) (w : World P) :
  (ssn (crudbase_read m qo w) = ssn w
   ∧ params (crudbase_read m qo w) = params w
   ∧ ∃ t, log (crudbase_read m qo w) = log w ++ t ∧ forallb is_execute t = true)
  ∧ (ssn (query_api_read m qo w) = ssn w
     ∧ params (query_api_read m qo w) = params w
     ∧ ∃ t, log (query_api_read m qo w) = log w ++ t ∧ forallb is_execute t = true).
Proof.
  rewrite crudbase_read_run, query_api_read_run.
  split; (split; [done|]; split; [done|]); eexists; (split; [reflexivity|]);
    apply logged_execute_events.
Qed.

(** X11.  Without a read method having stored a bound filter in
    [_filter_func], the customization hook raises [AttributeError] at the
    top level, so that the engine executes nothing; at deeper levels it
    does not look at [_filter_func] at all. *)
Theorem unbound_filter_func_raises (q : Query) (stmt : Select) (qo : QueryObject)
    (w : World P) :
  _filter_func w = None →
  (query_level q = 0 →
   CrudBase._query_customize_statements q stmt w = Raised AttributeError w
   ∧ QueryApi._query_customize_statements q stmt w = Raised AttributeError w)
  ∧ (query_level q ≠ 0 →
     CrudBase._query_customize_statements q stmt w = Returned stmt w
     ∧ QueryApi._query_customize_statements q stmt w = Returned stmt w)
  ∧ run (CrudBase.query qo) w = Raised AttributeError w
  ∧ run (QueryApi.init_query qo) w = Raised AttributeError w.
Proof.
  intros Hf.
  change (@QueryApi._query_customize_statements P _)
    with (@CrudBase._query_customize_statements P _).
  unfold CrudBase.query, QueryApi.init_query.
  change (@QueryApi._query_customize_statements P _)
    with (@CrudBase._query_customize_statements P _).
  rewrite customize_statements_run, Hf.
  split; [|split; [|split]].
  - intros Hq. by rewrite bool_decide_eq_true_2.
  - intros Hq. by rewrite bool_decide_eq_false_2.
  - destruct qo as [sel flt joins]. unfold run. cbn [page_query_object customize_statements plan
      execute_plan customize]. unfold mbind, M_bind, bind.
    rewrite customize_statements_run, Hf. done.
  - destruct qo as [sel flt joins]. unfold run. cbn [page_query_object customize_statements plan
      execute_plan customize]. unfold mbind, M_bind, bind.
    rewrite customize_statements_run, Hf. done.
Qed.
End ReadResults.


(** ** Python strings *)

Section PyStrFacts.
Import PyStr.
Variable sep : Ascii.ascii.

Lemma split_cons (s : string) : ∃ head tail, split sep s = head :: tail.
Proof.
  induction s as [|c rest (h & t & IH)]; simpl; [by eexists _, _|].
  destruct (decide (c = sep)); [by eexists _, _|].
  rewrite IH. by eexists _, _.
Qed.

Lemma length_split (s : string) : length (split sep s) = S (count sep s).
Proof.
  induction s as [|c rest IH]; simpl; [done|].
  destruct (decide (c = sep)); simpl; [by rewrite IH|].
  destruct (split_cons rest) as (h & t & Hs). rewrite Hs in *. done.
Qed.

Lemma split_items (s : string) : Forall (λ item, count sep item = 0) (split sep s).
Proof.
  induction s as [|c rest IH]; simpl; [by repeat constructor|].
  destruct (decide (c = sep)); [by constructor|].
  destruct (split_cons rest) as (h & t & Hs). rewrite Hs in *.
  apply Forall_cons in IH as [Hh Ht]. constructor; [|done].
  simpl. by rewrite decide_False.
Qed.

Lemma join_cons_cons (item next : string) (rest : list string) :
  join sep (item :: next :: rest) = item +:+ String sep (join sep (next :: rest)).
Proof. done. Qed.

Lemma join_cons_char (c : Ascii.ascii) (head : string) (tail : list string) :
  join sep (String c head :: tail) = String c (join sep (head :: tail)).
Proof. by destruct tail. Qed.

Lemma join_split (s : string) : join sep (split sep s) = s.
Proof.
  induction s as [|c rest IH]; [done|]. cbn [split].
  destruct (split_cons rest) as (h & t & Hs). rewrite Hs in *.
  destruct (decide (c = sep)) as [->|].
  - rewrite join_cons_cons, IH. done.
  - by rewrite join_cons_char, IH.
Qed.

Lemma split_no_sep (item : string) : count sep item = 0 → split sep item = [item].
Proof.
  induction item as [|c rest IH]; [done|]. simpl.
  destruct (decide (c = sep)); [done|]. intros Hc. by rewrite IH.
Qed.

Lemma split_app_sep (item s : string) :
  count sep item = 0 → split sep (item +:+ String sep s) = item :: split sep s.
Proof.
  induction item as [|c rest IH]; simpl.
  - intros _. by rewrite decide_True.
  - destruct (decide (c = sep)); [done|]. intros Hc. by rewrite IH.
Qed.

Lemma split_join (items : list string) :
  items ≠ [] → Forall (λ item, count sep item = 0) items →
  split sep (join sep items) = items.
Proof.
  induction items as [|item [|next rest] IH]; [done| |]; intros _ Hall.
  - apply Forall_cons in Hall as [Hi _]. by apply split_no_sep.
  - apply Forall_cons in Hall as [Hi Hrest].
    rewrite join_cons_cons, split_app_sep by done. by rewrite IH.
Qed.
End PyStrFacts.

Section StripFacts.
Import PyStr.

Lemma lstrip_first (s : string) (c : Ascii.ascii) :
  first_char (lstrip s) = Some c → isspace c = false.
Proof.
  induction s as [|c' rest IH]; [done|]. simpl.
  destruct (isspace c') eqn:Hc'; [done|]. simpl. by intros [= <-].
Qed.

Lemma rstrip_first (s : string) (c : Ascii.ascii) :
  first_char (rstrip s) = Some c → first_char s = Some c.
Proof.
  destruct s as [|c' rest]; [done|]. simpl.
  destruct (rstrip rest); [|done]. by destruct (isspace c').
Qed.

Lemma rstrip_last (s : string) (c : Ascii.ascii) :
  last_char (rstrip s) = Some c → isspace c = false.
Proof.
  induction s as [|c' rest IH]; [done|]. simpl.
  destruct (rstrip rest) as [|k kept].
  - destruct (isspace c') eqn:Hc'; [done|]. simpl. by intros [= <-].
  - done.
Qed.

Lemma lstrip_id (s : string) :
  (∀ c, first_char s = Some c → isspace c = false) → lstrip s = s.
Proof.
  destruct s as [|c rest]; [done|]. simpl. intros Hc. by rewrite (Hc c).
Qed.

Lemma rstrip_rstrip (s : string) : rstrip (rstrip s) = rstrip s.
Proof.
  induction s as [|c rest IH]; [done|]. simpl.
  destruct (rstrip rest) as [|k kept] eqn:Hr.
  - destruct (isspace c) eqn:Hc; [done|]. simpl. by rewrite Hc.
  - change (rstrip (String c (String k kept)))
      with (match rstrip (String k kept) with
            | EmptyString => if isspace c then EmptyString else String c EmptyString
            | String k' kept' => String c (String k' kept')
            end).
    by rewrite IH.
Qed.

Lemma strip_strip (s : string) : strip (strip s) = strip s.
Proof.
  unfold strip. rewrite (lstrip_id (rstrip (lstrip s))).
  - apply rstrip_rstrip.
  - intros c Hc. apply rstrip_first in Hc. by apply lstrip_first in Hc.
Qed.

Lemma count_lstrip (c : Ascii.ascii) (s : string) : count c (lstrip s) ≤ count c s.
Proof.
  induction s as [|c' rest IH]; [done|]. simpl.
  destruct (isspace c'); simpl; lia.
Qed.

Lemma count_rstrip (c : Ascii.ascii) (s : string) : count c (rstrip s) ≤ count c s.
Proof.
  induction s as [|c' rest IH]; [done|]. simpl.
  destruct (rstrip rest) as [|k kept].
  - destruct (isspace c'); simpl in *; lia.
  - cbn [count] in *. lia.
Qed.

Lemma count_strip (c : Ascii.ascii) (s : string) : count c (strip s) ≤ count c s.
Proof.
  unfold strip. etrans; [apply count_rstrip|apply count_lstrip].
Qed.
End StripFacts.

(** ** [settings.py] *)

Section CorsOrigins.
Import PyStr Settings.

(** X16.  [prepare_cors_origins] returns any value that is not a string as
    it is.  From a string it makes one item for each comma and one more
    (so one empty item from the empty string); no item contains a comma
    and none begins or ends with white space. *)
Theorem prepare_cors_origins_items {A} (v : string + A) :
  match v with
  | inr other => prepare_cors_origins v = inr other
  | inl s =>
      ∃ items, prepare_cors_origins v = inl items
        ∧ length items = S (count comma s)
        ∧ Forall (λ item,
                    count comma item = 0
                    ∧ strip item = item
                    ∧ (∀ c, first_char item = Some c → isspace c = false)
                    ∧ (∀ c, last_char item = Some c → isspace c = false)) items
  end.
Proof.
  destruct v as [s|other]; [|done]. eexists. split; [reflexivity|]. split.
  - by rewrite length_fmap, length_split.
  - apply Forall_fmap. eapply Forall_impl; [apply (split_items comma)|].
    intros item Hitem. cbn beta. repeat split.
    + pose proof (count_strip comma item). simpl in *. lia.
    + apply strip_strip.
    + intros c Hc. unfold strip in Hc. apply rstrip_first in Hc.
      by apply lstrip_first in Hc.
    + intros c Hc. by apply rstrip_last in Hc.
Qed.

(** X17.  Joining with commas and splitting on commas are inverse to each
    other on what the validator handles: a string is what its items joined
    give, and the items the validator returns, joined with commas and
    given to it again, come back unchanged. *)
Theorem prepare_cors_origins_round_trip (s : string) :
  join comma (split comma s) = s
  ∧ ∃ items, prepare_cors_origins (A := unit) (inl s) = inl items
             ∧ prepare_cors_origins (A := unit) (inl (join comma items)) = inl items.
Proof.
  split; [apply join_split|]. eexists. split; [reflexivity|].
  unfold prepare_cors_origins. f_equal.
  rewrite split_join.
  - rewrite <- list_fmap_compose. apply list_fmap_ext. intros i item _.
    apply strip_strip.
  - destruct (split_cons comma s) as (h & t & ->). done.
  - apply Forall_fmap. eapply Forall_impl; [apply (split_items comma)|].
    intros item Hitem. cbn beta. pose proof (count_strip comma item).
    simpl in *. lia.
Qed.
End CorsOrigins.

(** ** [doc.py] *)

Section DocHeap.
Import Doc.

Lemma read_insert_eq (h : Heap) (a : nat) (o : Documentation) :
  a < length h → read (<[a := o]> h) a = o.
Proof. intros Ha. unfold read. by rewrite list_lookup_insert_eq. Qed.

Lemma read_insert_ne (h : Heap) (a c : nat) (o : Documentation) :
  c ≠ a → read (<[a := o]> h) c = read h c.
Proof. intros Hc. unfold read. by rewrite list_lookup_insert_ne. Qed.

Lemma read_new_old (h : Heap) (o : Documentation) (c : nat) :
  c < length h → read (new h o).1 c = read h c.
Proof. intros Hc. unfold read, new. simpl. by rewrite lookup_app_l. Qed.

Lemma read_new (h : Heap) (o : Documentation) : read (new h o).1 (new h o).2 = o.
Proof.
  unfold read, new. simpl. rewrite lookup_app_r by done.
  by rewrite Nat.sub_diag.
Qed.

Lemma or_empty_or_None (s : string) : or_empty (or_None (Some s)) = s.
Proof. unfold or_None. by destruct (decide (s = EmptyString)) as [->|]. Qed.

Lemma append_cons (c : Ascii.ascii) (s t : string) :
  String c s +:+ t = String c (s +:+ t).
Proof. reflexivity. Qed.

Lemma append_nil (t : string) : EmptyString +:+ t = t.
Proof. reflexivity. Qed.

Lemma append_empty (s t : string) :
  s +:+ t = EmptyString ↔ s = EmptyString ∧ t = EmptyString.
Proof.
  destruct s as [|c s].
  - rewrite append_nil. split; [done|by intros [_ ?]].
  - rewrite append_cons. split; [done|by intros [? _]].
Qed.

Lemma append_assoc (s t u : string) : (s +:+ t) +:+ u = s +:+ (t +:+ u).
Proof.
  induction s as [|c s IH]; [done|]. rewrite !append_cons. by f_equal.
Qed.

Lemma Documentation_merge_read (h : Heap) (a b : nat) :
  a < length h →
  (Documentation_merge h a (Some b)).2 = a
  ∧ read (Documentation_merge h a (Some b)).1 a = merged h a b
  ∧ (∀ c, c ≠ a → read (Documentation_merge h a (Some b)).1 c = read h c)
  ∧ length (Documentation_merge h a (Some b)).1 = length h.
Proof.
  intros Ha. unfold Documentation_merge. cbn [fst snd]. split; [done|].
  assert (Hlen : length (set_summary h a
      (Some (or_empty (summary (read h a)) +:+ or_empty (summary (read h b))))) = length h).
  { unfold set_summary. by rewrite length_insert. }
  split; [|split].
  - unfold set_description at 1. rewrite read_insert_eq by (by rewrite Hlen).
    unfold set_summary at 1 2 3 4. rewrite !read_insert_eq by done. cbn [summary description class_].
    unfold merged. f_equal. f_equal. f_equal. f_equal. f_equal.
    destruct (decide (b = a)) as [->|Hne].
    + by rewrite read_insert_eq.
    + by rewrite read_insert_ne.
  - intros c Hc. unfold set_description, set_summary. by rewrite !read_insert_ne.
  - unfold set_description. by rewrite length_insert.
Qed.
End DocHeap.

Section DocMerge.
Import Doc.

(** X19.  [Documentation.merge] works in place: it returns the object it
    was called on, changes no other object and not the class or the
    further fields of that one.  Merging [None] changes nothing.  Merging
    an object appends its summary and description to those of the
    receiver, a missing one counting as empty; the description is [None]
    afterwards exactly when both were missing or empty. *)
Theorem Documentation_merge_in_place (h : Heap) (a : nat) (another : option nat) :
  a < length h →
  (Documentation_merge h a another).2 = a
  ∧ length (Documentation_merge h a another).1 = length h
  ∧ (∀ c, c ≠ a → read (Documentation_merge h a another).1 c = read h c)
  ∧ class_ (read (Documentation_merge h a another).1 a) = class_ (read h a)
  ∧ match another with
    | None => (Documentation_merge h a another).1 = h
    | Some b =>
        summary (read (Documentation_merge h a another).1 a)
        = Some (or_empty (summary (read h a)) +:+ or_empty (summary (read h b)))
        ∧ or_empty (description (read (Documentation_merge h a another).1 a))
          = or_empty (description (read h a)) +:+ or_empty (description (read h b))
        ∧ (description (read (Documentation_merge h a another).1 a) = None
           ↔ or_empty (description (read h a)) = EmptyString
             ∧ or_empty (description (read h b)) = EmptyString)
    end.
Proof.
  intros Ha. destruct another as [b|]; [|done].
  destruct (Documentation_merge_read h a b Ha) as (Hret & Hread & Hothers & Hlen).
  rewrite Hread. split; [done|]. split; [done|]. split; [done|]. split; [done|].
  cbn [merged summary description].
  split; [done|]. split; [apply or_empty_or_None|].
  unfold or_None. rewrite <- append_empty.
  by destruct (decide (_ = EmptyString)).
Qed.

(** X20.  Merging is associative in what it leaves at the receiver:
    merging [b] and then [c] into [a] gives [a] the content that merging
    [c] into [b] and then [b] into [a] gives it, provided [a] is neither
    [b] nor [c]. *)
Theorem Documentation_merge_assoc (h : Heap) (a b c : nat) :
  a < length h → b < length h → a ≠ b → a ≠ c →
  read (Documentation_merge (Documentation_merge h a (Some b)).1 a (Some c)).1 a
  = read (Documentation_merge (Documentation_merge h b (Some c)).1 a (Some b)).1 a.
Proof.
  intros Ha Hb Hab Hac.
  destruct (Documentation_merge_read h a b Ha) as (_ & Hab_a & Hab_o & Hab_len).
  destruct (Documentation_merge_read h b c Hb) as (_ & Hbc_b & Hbc_o & Hbc_len).
  destruct (Documentation_merge_read (Documentation_merge h a (Some b)).1 a c
              ltac:(by rewrite Hab_len)) as (_ & -> & _ & _).
  destruct (Documentation_merge_read (Documentation_merge h b (Some c)).1 a b
              ltac:(by rewrite Hbc_len)) as (_ & -> & _ & _).
  unfold merged. rewrite Hab_a, Hbc_b.
  rewrite (Hab_o c) by done. rewrite (Hbc_o a) by done.
  unfold merged. cbn [summary description class_ or_empty default].
  unfold id. rewrite !or_empty_or_None, !append_assoc. done.
Qed.
End DocMerge.

Section DocMarker.
Import Doc.

Lemma merge_dicts (h : Heap) (self another : doc) :
  parameters_doc (merge h self another).2 = parameters_doc another ∪ parameters_doc self
  ∧ errors_doc (merge h self another).2 = errors_doc another ∪ errors_doc self
  ∧ _parse_docstring (merge h self another).2 = _parse_docstring self.
Proof.
  unfold merge.
  repeat match goal with |- context [merge_field ?x ?y ?z] =>
    destruct (merge_field x y z) end.
  done.
Qed.

Lemma merge_field_None_r (h : Heap) (mine : option nat) :
  merge_field h mine None = (h, mine).
Proof. by destruct mine. Qed.

Lemma merge_field_None_l (h : Heap) (theirs : option nat) :
  merge_field h None theirs = (h, theirs).
Proof. done. Qed.

(** X21.  [doc.error] stores the documentation of the error where that of
    the return value goes, and registers no error: the marker it returns
    has an empty [errors_doc].  Merged with another marker, in either
    order, the registered errors are those of the other marker, and the
    wrapper that checks raised errors turns this very error, when the
    function raises it, into an [AssertionError]. *)
Theorem error_marker_registers_no_error (h : Heap) (error_ summary_ : string)
    (description_ : option string) :
  errors_doc (error h error_ summary_ description_).2 = ∅
  ∧ content (error h error_ summary_ description_).1
            (result_doc (error h error_ summary_ description_).2)
    = Some {| summary := Some summary_; description := description_;
              class_ := ErrorDoc error_ |}
  ∧ ∀ other : doc,
      errors_doc (merge (error h error_ summary_ description_).1 other
                        (error h error_ summary_ description_).2).2 = errors_doc other
      ∧ errors_doc (merge (error h error_ summary_ description_).1
                          (error h error_ summary_ description_).2 other).2
        = errors_doc other
      ∧ (errors_doc other !! error_ = None →
         ∀ A : Type,
           wrap_func_check_thrown_errors_are_documented (A := A)
             (merge (error h error_ summary_ description_).1 other
                    (error h error_ summary_ description_).2).2
             (RaisesApplicationError error_) = RaisesAssertionError
           ∧ wrap_func_check_thrown_errors_are_documented (A := A)
               (merge (error h error_ summary_ description_).1
                      (error h error_ summary_ description_).2 other).2
               (RaisesApplicationError error_) = RaisesAssertionError).
Proof.
  split; [done|]. split.
  - unfold error, content. cbn [new fst snd with_result_doc result_doc fmap option_fmap option_map].
    f_equal. apply (read_new h).
  - intros other.
    destruct (merge_dicts (error h error_ summary_ description_).1 other
                (error h error_ summary_ description_).2) as (_ & He1 & _).
    destruct (merge_dicts (error h error_ summary_ description_).1
                (error h error_ summary_ description_).2 other) as (_ & He2 & _).
    assert (H1 : errors_doc (merge (error h error_ summary_ description_).1 other
                        (error h error_ summary_ description_).2).2 = errors_doc other).
    { rewrite He1. cbn [error new fst snd with_result_doc errors_doc init].
      by rewrite (left_id_L ∅ (∪)). }
    assert (H2 : errors_doc (merge (error h error_ summary_ description_).1
                        (error h error_ summary_ description_).2 other).2 = errors_doc other).
    { rewrite He2. cbn [error new fst snd with_result_doc errors_doc init].
      by rewrite (right_id_L ∅ (∪)). }
    split; [done|]. split; [done|]. intros Hnone A.
    unfold wrap_func_check_thrown_errors_are_documented. rewrite H1, H2, Hnone.
    rewrite decide_False by (by intros [? ?]). done.
Qed.

(** X22.  [doc.merge] with a marker that documents nothing changes neither
    the receiver nor any documentation object, and a marker that documents
    nothing takes over all that another one documents.  For parameters and
    errors documented by both, the entry of the marker merged in wins. *)
Theorem merge_identity_and_priority (h : Heap) (self another : doc) :
  merge h self init = (h, self)
  ∧ (merge h init another).1 = h
  ∧ function_doc (merge h init another).2 = function_doc another
  ∧ result_doc (merge h init another).2 = result_doc another
  ∧ deprecated_doc (merge h init another).2 = deprecated_doc another
  ∧ parameters_doc (merge h init another).2 = parameters_doc another
  ∧ errors_doc (merge h init another).2 = errors_doc another
  ∧ (∀ name, parameters_doc (merge h self another).2 !! name
             = match parameters_doc another !! name with
               | Some a => Some a
               | None => parameters_doc self !! name
               end)
  ∧ (∀ e, errors_doc (merge h self another).2 !! e
          = match errors_doc another !! e with
            | Some a => Some a
            | None => errors_doc self !! e
            end).
Proof.
  split; [|split; [|split; [|split; [|split; [|split; [|split; [|split]]]]]]].
  - unfold merge. cbn [init function_doc result_doc deprecated_doc parameters_doc errors_doc
      with_parameters_doc with_errors_doc with_function_doc with_result_doc].
    rewrite !merge_field_None_r. rewrite !(left_id_L ∅ (∪)). by destruct self.
  - unfold merge. by cbn.
  - unfold merge. by cbn.
  - unfold merge. by cbn.
  - unfold merge. by cbn.
  - destruct (merge_dicts h init another) as (-> & _ & _). cbn [init parameters_doc].
    by rewrite (right_id_L ∅ (∪)).
  - destruct (merge_dicts h init another) as (_ & -> & _). cbn [init errors_doc].
    by rewrite (right_id_L ∅ (∪)).
  - intros name. destruct (merge_dicts h self another) as (-> & _ & _).
    rewrite lookup_union. by destruct (parameters_doc another !! name), (parameters_doc self !! name).
  - intros e. destruct (merge_dicts h self another) as (_ & -> & _).
    rewrite lookup_union. by destruct (errors_doc another !! e), (errors_doc self !! e).
Qed.

(** X23.  [doc.merge] does not copy: a receiver without documentation of
    the function takes the very object the other marker holds.  Merging a
    third marker into that receiver afterwards changes this object, and
    so what the other marker documents. *)
Theorem merge_shares_documentation (h : Heap) (self another third : doc) (b c : nat) :
  function_doc self = None → result_doc self = None → deprecated_doc self = None →
  function_doc another = Some b → result_doc another = None →
  deprecated_doc another = None →
  function_doc third = Some c → b < length h →
  (merge h self another).1 = h
  ∧ function_doc (merge h self another).2 = Some b
  ∧ content (merge h (merge h self another).2 third).1 (function_doc another)
    = Some (merged h b c)
  ∧ (or_empty (summary (read h c)) ≠ EmptyString →
     content (merge h (merge h self another).2 third).1 (function_doc another)
     ≠ content h (function_doc another)).
Proof.
  intros Hsf Hsr Hsd Haf Har Had Htf Hb.
  assert (Hm1 : merge h self another
                = (h, with_deprecated_doc None (with_result_doc None
                        (with_function_doc (Some b)
                           (with_errors_doc (errors_doc another ∪ errors_doc self)
                              (with_parameters_doc
                                 (parameters_doc another ∪ parameters_doc self) self)))))).
  { unfold merge. cbn [function_doc result_doc deprecated_doc with_parameters_doc
      with_errors_doc with_function_doc with_result_doc].
    by rewrite Hsf, Hsr, Hsd, Haf, Har, Had. }
  rewrite Hm1. cbn [fst snd]. split; [done|]. split; [done|].
  assert (Hc : content (merge h (with_deprecated_doc None (with_result_doc None
                        (with_function_doc (Some b)
                           (with_errors_doc (errors_doc another ∪ errors_doc self)
                              (with_parameters_doc
                                 (parameters_doc another ∪ parameters_doc self) self)))))
                 third).1 (function_doc another) = Some (merged h b c)).
  { unfold merge. cbn [function_doc result_doc deprecated_doc with_parameters_doc
      with_errors_doc with_function_doc with_result_doc with_deprecated_doc].
    rewrite Htf, Haf. cbn [merge_field].
    destruct (Documentation_merge_read h b c Hb) as (_ & Hread & _ & _).
    destruct (Documentation_merge h b (Some c)) as [h1 a1] eqn:Hdm.
    cbn [fst snd content fmap option_fmap option_map] in *. by rewrite Hread. }
  split; [done|]. intros Hne. rewrite Hc, Haf.
  cbn [content fmap option_fmap option_map]. intros [= Heq].
  assert (Hs : summary (merged h b c) = summary (read h b)) by (by rewrite Heq).
  cbn [merged summary] in Hs.
  destruct (summary (read h b)) as [s|] eqn:Hsb; [|done].
  cbn [or_empty default] in Hs. injection Hs as Hs.
  apply Hne. clear -Hs. unfold id in Hs.
  induction s as [|k s IH]; [done|].
  rewrite append_cons in Hs. injection Hs as Hs. auto.
Qed.
Lemma merge_field_spec (h : Heap) (mine theirs : option nat) :
  (∀ a, mine = Some a → a < length h) →
  length (merge_field h mine theirs).1 = length h
  ∧ (∀ c, mine ≠ Some c → read (merge_field h mine theirs).1 c = read h c)
  ∧ read (merge_field h mine theirs).1 <$> (merge_field h mine theirs).2
    = merged_field h mine theirs
  ∧ (merge_field h mine theirs).2 = match mine with Some a => Some a | None => theirs end.
Proof.
  intros Hvalid. destruct mine as [a|]; [|done].
  specialize (Hvalid a eq_refl). destruct theirs as [b|].
  - cbn [merge_field merged_field].
    destruct (Documentation_merge_read h a b Hvalid) as (Hret & Hread & Hothers & Hlen).
    destruct (Documentation_merge h a (Some b)) as [h1 a1]. cbn [fst snd] in *. subst a1.
    split; [done|]. split; [|split; [|done]].
    + intros c Hc. apply Hothers. congruence.
    + cbn [fmap option_fmap option_map]. by rewrite Hread.
  - done.
Qed.

(** X29.  [doc.merge], field by field: when the documentation objects the
    receiver holds are different objects, and none of them is one the
    other marker holds, each of the three fields documents afterwards the
    receiver's object with the other's appended, or what the other marker
    documents if the receiver had none; the receiver keeps its own
    objects, and every object the receiver did not hold is unchanged,
    those of the other marker among them. *)
Theorem merge_field_by_field (h : Heap) (self another : doc) :
  NoDup (held self) →
  (∀ a, a ∈ held self → a < length h ∧ a ∉ held another) →
  content (merge h self another).1 (function_doc (merge h self another).2)
  = merged_field h (function_doc self) (function_doc another)
  ∧ content (merge h self another).1 (result_doc (merge h self another).2)
    = merged_field h (result_doc self) (result_doc another)
  ∧ content (merge h self another).1 (deprecated_doc (merge h self another).2)
    = merged_field h (deprecated_doc self) (deprecated_doc another)
  ∧ (∀ c, c ∉ held self → read (merge h self another).1 c = read h c).
Proof.
  intros Hnd Hheld.
  destruct self as [sf sp sr se sd sq], another as [af ap ar ae ad aq].
  unfold merge.
  cbn [function_doc result_doc deprecated_doc parameters_doc errors_doc held
       with_parameters_doc with_errors_doc] in *.
  assert (Hf : ∀ a, sf = Some a → a < length h ∧ a ∉ omap id [af; ar; ad]).
  { intros a ->. apply Hheld. cbn. by left. }
  assert (Hr : ∀ a, sr = Some a → a < length h ∧ a ∉ omap id [af; ar; ad]).
  { intros a ->. apply Hheld. destruct sf; cbn; [right|]; by left. }
  assert (Hd : ∀ a, sd = Some a → a < length h ∧ a ∉ omap id [af; ar; ad]).
  { intros a ->. apply Hheld. destruct sf, sr; cbn; repeat first [by left|right]. }
  assert (Hfr : ∀ a, sf = Some a → sr ≠ Some a).
  { intros a -> ->. cbn in Hnd. apply NoDup_cons in Hnd as [Hn _].
    apply Hn. by left. }
  assert (Hfd : ∀ a, sf = Some a → sd ≠ Some a).
  { intros a -> ->. destruct sr; cbn in Hnd; apply NoDup_cons in Hnd as [Hn _];
      apply Hn; repeat first [by left|right]. }
  assert (Hrd : ∀ a, sr = Some a → sd ≠ Some a).
  { intros a -> ->. destruct sf; cbn in Hnd.
    - apply NoDup_cons in Hnd as [_ Hnd]. apply NoDup_cons in Hnd as [Hn _].
      apply Hn. by left.
    - apply NoDup_cons in Hnd as [Hn _]. apply Hn. by left. }
  clear Hnd Hheld.
  cbv beta iota delta [function_doc result_doc deprecated_doc parameters_doc errors_doc
    with_parameters_doc with_errors_doc with_function_doc with_result_doc
    with_deprecated_doc content].
  destruct (merge_field_spec h sf af ltac:(intros a Ha; by apply Hf))
    as (Hl1 & Ho1 & Hc1 & Hm1).
  destruct (merge_field h sf af) as [h1 f] eqn:E1. cbn [fst snd] in *.
  destruct (merge_field_spec h1 sr ar ltac:(intros a Ha; rewrite Hl1; by apply Hr))
    as (Hl2 & Ho2 & Hc2 & Hm2).
  destruct (merge_field h1 sr ar) as [h2 r] eqn:E2. cbn [fst snd] in *.
  destruct (merge_field_spec h2 sd ad
              ltac:(intros a Ha; rewrite Hl2, Hl1; by apply Hd))
    as (Hl3 & Ho3 & Hc3 & Hm3).
  destruct (merge_field h2 sd ad) as [h3 d] eqn:E3. cbn [fst snd] in *.
  (* an object of the other marker is not one a field of the receiver holds *)
  assert (Ha1 : ∀ x b, x ∈ [af; ar; ad] → x = Some b → sf ≠ Some b ∧ sr ≠ Some b ∧ sd ≠ Some b).
  { intros x b Hx -> . assert (Hb : b ∈ omap id [af; ar; ad]).
    { apply list_elem_of_omap. exists (Some b). by split. }
    repeat split; intros Hs; [apply Hf in Hs|apply Hr in Hs|apply Hd in Hs];
      by destruct Hs as [_ Hs]. }
  split; [|split; [|split]].
  - rewrite <- Hc1. subst f. destruct sf as [a|].
    + cbn [fmap option_fmap option_map]. f_equal.
      by rewrite (Ho3 a (Hfd a eq_refl)), (Ho2 a (Hfr a eq_refl)).
    + destruct af as [b|]; [|done]. cbn [fmap option_fmap option_map]. f_equal.
      destruct (Ha1 (Some b) b ltac:(by left) eq_refl) as (_ & Hbr & Hbd).
      by rewrite (Ho3 b Hbd), (Ho2 b Hbr).
  - assert (Hsame : merged_field h1 sr ar = merged_field h sr ar).
    { unfold merged_field, merged. destruct sr as [a|].
      - assert (Ha : read h1 a = read h a).
        { apply Ho1. intros Hs. by apply (Hfr a Hs). }
        destruct ar as [b|]; rewrite Ha; [|done].
        destruct (Ha1 (Some b) b ltac:(right; by left) eq_refl) as (Hbf & _ & _).
        by rewrite (Ho1 b Hbf).
      - destruct ar as [b|]; [|done]. cbn [fmap option_fmap option_map]. f_equal.
        destruct (Ha1 (Some b) b ltac:(right; by left) eq_refl) as (Hbf & _ & _).
        by apply Ho1. }
    rewrite <- Hsame, <- Hc2. subst r. destruct sr as [a|].
    + cbn [fmap option_fmap option_map]. f_equal. apply Ho3.
      by apply (Hrd a eq_refl).
    + destruct ar as [b|]; [|done]. cbn [fmap option_fmap option_map]. f_equal.
      destruct (Ha1 (Some b) b ltac:(right; by left) eq_refl) as (_ & _ & Hbd).
      by apply Ho3.
  - rewrite Hc3. unfold merged_field, merged. destruct sd as [a|].
    + assert (Ha : read h2 a = read h a).
      { rewrite Ho2 by (intros Hs; by apply (Hrd a Hs)).
        apply Ho1. intros Hs. by apply (Hfd a Hs). }
      destruct ad as [b|]; rewrite Ha; [|done].
      destruct (Ha1 (Some b) b ltac:(right; right; by left) eq_refl) as (Hbf & Hbr & _).
      by rewrite (Ho2 b Hbr), (Ho1 b Hbf).
    + destruct ad as [b|]; [|done]. cbn [fmap option_fmap option_map]. f_equal.
      destruct (Ha1 (Some b) b ltac:(right; right; by left) eq_refl) as (Hbf & Hbr & _).
      by rewrite (Ho2 b Hbr), (Ho1 b Hbf).
  - intros c Hc.
    assert (Hcf : sf ≠ Some c).
    { intros ->. apply Hc. cbn. by left. }
    assert (Hcr : sr ≠ Some c).
    { intros ->. apply Hc. destruct sf; cbn; [right|]; by left. }
    assert (Hcd : sd ≠ Some c).
    { intros ->. apply Hc. destruct sf, sr; cbn; repeat first [by left|right]. }
    by rewrite Ho3, Ho2, Ho1.
Qed.
End DocMarker.

Section DocFromDocstring.
Import Doc.

Lemma or_None_or_empty (d : option string) : or_None (Some (or_empty (or_None d))) = or_None d.
Proof.
  destruct d as [s|]; [|done]. cbn [or_None].
  destruct (decide (s = EmptyString)) as [->|Hs]; [done|].
  cbn [or_empty default]. unfold id. by rewrite decide_False.
Qed.

Lemma or_empty_or_None_opt (d : option string) : or_empty (or_None d) = or_empty d.
Proof.
  destruct d as [s|]; [|done]. cbn [or_None].
  by destruct (decide (s = EmptyString)) as [->|Hs].
Qed.

Lemma new_length (h : Heap) (o : Documentation) : length (new h o).1 = S (length h).
Proof. unfold new. cbn [fst]. rewrite length_app. simpl. lia. Qed.

Lemma _add_doc_for_function_Some (h : Heap) (self : doc) (a : nat)
    (summary_ description_ : option string) :
  function_doc self = Some a →
  let o := {| summary := summary_; description := or_None description_;
              class_ := FunctionDoc |} in
  _add_doc_for_function h self summary_ description_
  = ((Documentation_merge (new h o).1 a (Some (new h o).2)).1, self).
Proof. intros Hf. unfold _add_doc_for_function. rewrite Hf. cbn. by rewrite Hf. Qed.

Lemma _add_doc_for_function_None (h : Heap) (self : doc)
    (summary_ description_ : option string) :
  function_doc self = None →
  let o0 := {| summary := Some EmptyString; description := None; class_ := FunctionDoc |} in
  let o := {| summary := summary_; description := or_None description_;
              class_ := FunctionDoc |} in
  _add_doc_for_function h self summary_ description_
  = ((Documentation_merge (new (new h o0).1 o).1 (new h o0).2
        (Some (new (new h o0).1 o).2)).1,
     with_function_doc (Some (new h o0).2) self).
Proof. intros Hf. unfold _add_doc_for_function. by rewrite Hf. Qed.

(** The content [_add_doc_for_function] leaves, for a marker that holds a
    valid reference or none. *)
Lemma _add_doc_for_function_content (h : Heap) (self : doc)
    (summary_ description_ : option string) :
  (∀ a, function_doc self = Some a → a < length h) →
  let before := default {| summary := Some EmptyString; description := None;
                            class_ := FunctionDoc |} (content h (function_doc self)) in
  (∀ a, function_doc (_add_doc_for_function h self summary_ description_).2 = Some a →
        a < length (_add_doc_for_function h self summary_ description_).1)
  ∧ is_Some (function_doc (_add_doc_for_function h self summary_ description_).2)
  ∧ content (_add_doc_for_function h self summary_ description_).1
            (function_doc (_add_doc_for_function h self summary_ description_).2)
    = Some {| summary := Some (or_empty (summary before) +:+ or_empty summary_);
              description := or_None (Some (or_empty (description before)
                                            +:+ or_empty description_));
              class_ := class_ before |}.
Proof.
  intros Hvalid. cbv zeta.
  destruct (function_doc self) as [a|] eqn:Hf.
  - specialize (Hvalid a eq_refl).
    rewrite (_add_doc_for_function_Some h self a) by done. cbv zeta.
    set (o := {| summary := summary_; description := or_None description_;
                 class_ := FunctionDoc |}).
    assert (Ha1 : a < length (new h o).1) by (rewrite new_length; lia).
    destruct (Documentation_merge_read (new h o).1 a (new h o).2 Ha1)
      as (_ & Hread & _ & Hlen).
    cbn [fst snd]. rewrite Hf. split; [|split].
    + intros a' [= <-]. by rewrite Hlen.
    + by eexists.
    + cbn [content fmap option_fmap option_map default]. unfold id.
      rewrite Hread. unfold merged. rewrite read_new, read_new_old by done.
      unfold o. cbn [summary description class_]. by rewrite or_empty_or_None_opt.
  - rewrite (_add_doc_for_function_None h self) by done. cbv zeta.
    set (o0 := {| summary := Some EmptyString; description := None; class_ := FunctionDoc |}).
    set (o := {| summary := summary_; description := or_None description_;
                 class_ := FunctionDoc |}).
    assert (Ha1 : (new h o0).2 < length (new (new h o0).1 o).1)
      by (rewrite !new_length; simpl; lia).
    destruct (Documentation_merge_read (new (new h o0).1 o).1 (new h o0).2
                (new (new h o0).1 o).2 Ha1) as (_ & Hread & _ & Hlen).
    cbn [fst snd with_function_doc function_doc].
    split; [|split].
    + intros a' [= <-]. by rewrite Hlen.
    + by eexists.
    + cbn [content fmap option_fmap option_map default]. unfold id.
      rewrite Hread. unfold merged.
      rewrite read_new. rewrite read_new_old by (rewrite new_length; simpl; lia).
      rewrite read_new.
      unfold o, o0. cbn [summary description class_]. by rewrite or_empty_or_None_opt.
Qed.

(** X24.  [_add_doc_for_function] accumulates: on a marker that does not
    document the function yet, two calls leave the documentation one call
    with the summaries and the descriptions concatenated would leave, a
    missing text counting as empty. *)
Theorem add_doc_for_function_accumulates (h : Heap) (self : doc)
    (s1 d1 s2 d2 : option string) :
  function_doc self = None →
  let once := _add_doc_for_function h self s1 d1 in
  let twice := _add_doc_for_function once.1 once.2 s2 d2 in
  let joined := _add_doc_for_function h self (Some (or_empty s1 +:+ or_empty s2))
                  (Some (or_empty d1 +:+ or_empty d2)) in
  content twice.1 (function_doc twice.2) = content joined.1 (function_doc joined.2)
  ∧ content twice.1 (function_doc twice.2)
    = Some {| summary := Some (or_empty s1 +:+ or_empty s2);
              description := or_None (Some (or_empty d1 +:+ or_empty d2));
              class_ := FunctionDoc |}.
Proof.
  intros Hnone. cbv zeta.
  assert (Hvalid : ∀ a, function_doc self = Some a → a < length h)
    by (by rewrite Hnone).
  destruct (_add_doc_for_function_content h self s1 d1 Hvalid) as (Hv1 & _ & Hc1).
  destruct (_add_doc_for_function_content _ _ s2 d2 Hv1) as (_ & _ & Hc2).
  destruct (_add_doc_for_function_content h self
              (Some (or_empty s1 +:+ or_empty s2))
              (Some (or_empty d1 +:+ or_empty d2)) Hvalid) as (_ & _ & Hj).
  rewrite Hc2, Hj, Hc1, Hnone.
  cbn [content fmap option_fmap option_map default summary description class_ or_empty].
  unfold id. rewrite ?append_nil. cbn [summary description class_ or_empty default]. unfold id.
  rewrite !or_empty_or_None. done.
Qed.

(** X25.  The version given to [_add_doc_deprecated] does not reach the
    marker: the call keeps the version of the deprecation the marker
    holds, and for a marker that holds none the version stays empty. *)
Theorem add_doc_deprecated_drops_version (h : Heap) (self : doc) (version : string)
    (summary_ description_ : option string) :
  (∀ a, deprecated_doc self = Some a → a < length h) →
  ∃ a, deprecated_doc (_add_doc_deprecated h self version summary_ description_).2 = Some a
       ∧ class_ (read (_add_doc_deprecated h self version summary_ description_).1 a)
         = match deprecated_doc self with
           | Some a0 => class_ (read h a0)
           | None => DeprecatedDoc EmptyString
           end
       ∧ summary (read (_add_doc_deprecated h self version summary_ description_).1 a)
         = Some (match deprecated_doc self with
                 | Some a0 => or_empty (summary (read h a0))
                 | None => EmptyString
                 end +:+ or_empty summary_).
Proof.
  intros Hvalid. unfold _add_doc_deprecated.
  destruct (deprecated_doc self) as [a|] eqn:Hd.
  - specialize (Hvalid a eq_refl).
    set (o := {| summary := summary_; description := or_None description_;
                 class_ := DeprecatedDoc version |}).
    change (let '(h2, b) := new h o in
            match deprecated_doc self with
            | Some a => ((Documentation_merge h2 a (Some b)).1, self)
            | None => (h2, self)
            end)
      with (match deprecated_doc self with
            | Some a => ((Documentation_merge (new h o).1 a (Some (new h o).2)).1, self)
            | None => ((new h o).1, self)
            end).
    rewrite Hd. cbn [fst snd]. rewrite Hd. exists a. split; [done|].
    assert (Ha1 : a < length (new h o).1) by (rewrite new_length; lia).
    destruct (Documentation_merge_read (new h o).1 a (new h o).2 Ha1)
      as (_ & -> & _ & _).
    unfold merged. cbn [class_ summary]. rewrite read_new, read_new_old by done. done.
  - set (o0 := {| summary := Some EmptyString; description := None;
                  class_ := DeprecatedDoc EmptyString |}).
    set (o := {| summary := summary_; description := or_None description_;
                 class_ := DeprecatedDoc version |}).
    change (let '(h1, self1) := let '(h1, a) := new h o0 in
                                (h1, with_deprecated_doc (Some a) self) in
            let '(h2, b) := new h1 o in
            match deprecated_doc self1 with
            | Some a => ((Documentation_merge h2 a (Some b)).1, self1)
            | None => (h2, self1)
            end)
      with ((Documentation_merge (new (new h o0).1 o).1 (new h o0).2
               (Some (new (new h o0).1 o).2)).1,
            with_deprecated_doc (Some (new h o0).2) self).
    cbn [fst snd with_deprecated_doc deprecated_doc].
    exists (new h o0).2. split; [done|].
    assert (Ha1 : (new h o0).2 < length (new (new h o0).1 o).1)
      by (rewrite !new_length; simpl; lia).
    destruct (Documentation_merge_read (new (new h o0).1 o).1 (new h o0).2
                (new (new h o0).1 o).2 Ha1) as (_ & -> & _ & _).
    unfold merged. cbn [class_ summary].
    rewrite read_new. rewrite read_new_old by (rewrite new_length; simpl; lia).
    rewrite read_new. done.
Qed.
End DocFromDocstring.

Section Partition.
Import PyStr.
Variable sep : Ascii.ascii.

Lemma partition_no_sep (s : string) :
  count sep s = 0 → partition sep s = (s, EmptyString, EmptyString).
Proof.
  induction s as [|c s IH]; [done|]. simpl.
  destruct (decide (c = sep)); [done|]. intros Hc. by rewrite IH.
Qed.

Lemma partition_app_sep (head tail : string) :
  count sep head = 0 →
  partition sep (head +:+ String sep tail) = (head, String sep EmptyString, tail).
Proof.
  induction head as [|c s IH].
  - intros _. rewrite append_nil. simpl. by rewrite decide_True.
  - rewrite append_cons. simpl. destruct (decide (c = sep)); [done|].
    intros Hc. by rewrite IH.
Qed.

Lemma length_append (s t : string) :
  String.length (s +:+ t) = String.length s + String.length t.
Proof.
  induction s as [|c s IH]; [done|]. rewrite append_cons. simpl. by rewrite IH.
Qed.

End Partition.

Section FindObject.
Import Doc.

Lemma partition_head_no_sep (s : string) :
  PyStr.count dot (PyStr.partition dot s).1.1 = 0.
Proof.
  induction s as [|c s IH]; [done|]. simpl.
  destruct (decide (c = dot)) as [->|Hc]; [done|].
  destruct (PyStr.partition dot s) as [[head found] tail]. simpl in *.
  by rewrite decide_False.
Qed.

Lemma find_attribute_one (fuel : nat) (object : pyobj) (attribute : string) :
  PyStr.count dot attribute = 0 →
  find_attribute (S fuel) object attribute = Some (getattr object attribute).
Proof.
  intros Hdot. cbn [find_attribute]. rewrite (partition_no_sep dot attribute Hdot).
  destruct (getattr object attribute); [done|]. by rewrite decide_True.
Qed.

Lemma find_attribute_two (fuel : nat) (object : pyobj) (attribute : string) :
  find_attribute (S (S fuel)) object attribute
  = let '(attribute, _, next_attribute) := PyStr.partition dot attribute in
    Some (match getattr object attribute with
          | inl e => inl e
          | inr object =>
              if decide (next_attribute = EmptyString) then inr object
              else getattr object attribute
          end).
Proof.
  change (find_attribute (S (S fuel)) object attribute)
    with (let '(attribute, _, next_attribute) := PyStr.partition dot attribute in
          match getattr object attribute with
          | inl e => Some (inl e)
          | inr object =>
              if decide (next_attribute = EmptyString) then Some (inr object)
              else find_attribute (S fuel) object attribute
          end).
  pose proof (partition_head_no_sep attribute) as Hhead.
  destruct (PyStr.partition dot attribute) as [[head found] next]. cbn [fst] in Hhead.
  destruct (getattr object head) as [e|o]; [done|].
  destruct (decide (next = EmptyString)); [done|].
  by apply find_attribute_one.
Qed.

Lemma fuel_two_rounds (attribute rest : string) :
  S (String.length (attribute +:+ String dot rest))
  = S (S (String.length attribute + String.length rest)).
Proof.
  rewrite length_append. cbn [String.length]. lia.
Qed.

Lemma find_attribute_total (fuel : nat) (object : pyobj) (attribute : string) :
  String.length attribute < fuel → is_Some (find_attribute fuel object attribute).
Proof.
  intros Hlen. destruct fuel as [|[|fuel]]; [lia| |].
  - destruct attribute; [|simpl in Hlen; lia]. by rewrite find_attribute_one.
  - rewrite find_attribute_two.
    destruct (PyStr.partition dot attribute) as [[head found] next]. by eexists.
Qed.

(** X26.  [find_object_in_namespace] ends for every reference, and a
    reference without a dot does not resolve to the object of that name:
    a name missing from the namespace raises [KeyError], and for a name
    that is there the result is that of reading the attribute with the
    empty name from its object. *)
Theorem find_object_without_dot (namespace : gmap string pyobj) (reference : string) :
  is_Some (find_object_in_namespace namespace reference)
  ∧ (PyStr.count dot reference = 0 →
     find_object_in_namespace namespace reference
     = Some (match namespace !! reference with
             | None => inl KeyError
             | Some object => getattr object EmptyString
             end)).
Proof.
  split.
  - unfold find_object_in_namespace.
    destruct (PyStr.partition dot reference) as [[name found] attribute].
    destruct (namespace !! name); [|by eexists].
    apply find_attribute_total. lia.
  - intros Hdot. unfold find_object_in_namespace.
    rewrite (partition_no_sep dot reference Hdot).
    destruct (namespace !! reference) as [object|]; [|done].
    by apply find_attribute_one.
Qed.

(** X27.  A dotted reference is resolved through its first attribute only.
    For a name and an attribute name without dots, the reference
    [name.attribute] resolves to that attribute of the object of that name.
    When more components follow, the loop reads the same attribute name a
    second time, from the object the first read gave, and stops: the
    components after the first attribute are never read.  A name missing
    from the namespace raises [KeyError], an attribute missing at either
    read [AttributeError]. *)
Theorem find_object_reads_first_attribute (namespace : gmap string pyobj)
    (name attribute : string) (rest : list string) :
  PyStr.count dot name = 0 →
  PyStr.count dot attribute = 0 →
  find_object_in_namespace namespace (PyStr.join dot (name :: attribute :: rest))
  = Some (match namespace !! name with
          | None => inl KeyError
          | Some object =>
              match getattr object attribute with
              | inl e => inl e
              | inr found =>
                  if decide (PyStr.join dot rest = EmptyString) then inr found
                  else getattr found attribute
              end
          end).
Proof.
  intros Hname Hattr. unfold find_object_in_namespace.
  rewrite join_cons_cons, (partition_app_sep dot name _ Hname).
  destruct (namespace !! name) as [object|]; [|done].
  destruct rest as [|next rest].
  - cbn [PyStr.join]. rewrite find_attribute_one by done.
    destruct (getattr object attribute); [done|]. by rewrite decide_True.
  - rewrite join_cons_cons.
    rewrite (fuel_two_rounds attribute), find_attribute_two.
    rewrite (partition_app_sep dot attribute _ Hattr). done.
Qed.
End FindObject.

Section ExceptionName.
Import Doc.
Variable builtins : gset string.

(** X28.  An error named in a docstring without a dot is never
    registered, as long as the objects of the namespace have no attribute
    with the empty name: the name of a builtin is skipped and any other
    raises [ValueError], whether the namespace has it or not.  An error
    named [name.attribute], where that attribute of the object of that name
    is a subclass of the application error, is registered under that class.
    An error named by a longer path raises [ValueError] when the object
    the first attribute gives has no attribute of the same name. *)
Theorem add_doc_exception_by_name (h : Heap) (self : doc) (globals : gmap string pyobj)
    (summary_ description_ : option string) :
  (∀ error_name,
     PyStr.count dot error_name = 0 →
     (∀ object, globals !! error_name = Some object →
                getattr object EmptyString = inl AttributeError) →
     _add_doc_exception_name builtins h self globals error_name summary_ description_
     = Some (if decide (error_name ∈ builtins) then inr (h, self) else inl ValueError))
  ∧ (∀ name attribute object cls attributes,
       PyStr.count dot name = 0 →
       PyStr.count dot attribute = 0 →
       PyStr.join dot [name; attribute] ∉ builtins →
       globals !! name = Some object →
       getattr object attribute = inr (PyObj (ApplicationErrorClass cls) attributes) →
       ∃ h' self',
         _add_doc_exception_name builtins h self globals (PyStr.join dot [name; attribute])
           summary_ description_ = Some (inr (h', self'))
         ∧ content h' (errors_doc self' !! cls)
           = Some {| summary := summary_; description := description_;
                     class_ := ErrorDoc cls |}
         ∧ (∀ e, e ≠ cls → errors_doc self' !! e = errors_doc self !! e))
  ∧ (∀ name attribute rest object found,
       PyStr.count dot name = 0 →
       PyStr.count dot attribute = 0 →
       PyStr.join dot rest ≠ EmptyString →
       PyStr.join dot (name :: attribute :: rest) ∉ builtins →
       globals !! name = Some object →
       getattr object attribute = inr found →
       getattr found attribute = inl AttributeError →
       _add_doc_exception_name builtins h self globals
         (PyStr.join dot (name :: attribute :: rest)) summary_ description_
       = Some (inl ValueError)).
Proof.
  split; [|split].
  - intros error_name Hdot Hattr. unfold _add_doc_exception_name.
    destruct (decide (error_name ∈ builtins)); [done|].
    unfold find_object_in_namespace. rewrite (partition_no_sep dot error_name Hdot).
    destruct (globals !! error_name) as [object|] eqn:Hg; [|done].
    rewrite find_attribute_one by done.
    by rewrite (Hattr object eq_refl).
  - intros name attribute object cls attributes Hname Hattr Hnb Hg Hget.
    unfold _add_doc_exception_name. rewrite decide_False by done.
    unfold find_object_in_namespace.
    rewrite join_cons_cons, (partition_app_sep dot name _ Hname), Hg.
    cbn [PyStr.join]. rewrite find_attribute_one by done.
    rewrite Hget. cbn [kind_of]. eexists _, _. split; [reflexivity|].
    unfold _add_doc_exception. cbn [new fst snd with_errors_doc errors_doc].
    split.
    + rewrite lookup_insert_eq. cbn [content fmap option_fmap option_map].
      f_equal. apply (read_new h).
    + intros e He. by rewrite lookup_insert_ne.
  - intros name attribute rest object found Hname Hattr Hrest Hnb Hg Hget Hget2.
    unfold _add_doc_exception_name. rewrite decide_False by done.
    unfold find_object_in_namespace.
    rewrite join_cons_cons, (partition_app_sep dot name _ Hname), Hg.
    destruct rest as [|next rest]; [done|].
    rewrite join_cons_cons in *.
    rewrite (fuel_two_rounds attribute), find_attribute_two.
    rewrite (partition_app_sep dot attribute _ Hattr), Hget.
    rewrite decide_False by done. by rewrite Hget2.
Qed.
End ExceptionName.

(** ** The properties above, on the handlers and inputs of the test suite *)

Lemma one_user_settled (b : nat) : settled (deref (ssn api_for_user_1) b) = true.
Proof. destruct b as [|b]; [vm_compute; reflexivity|reflexivity]. Qed.

Lemma create_instance_is_fresh_witness :
  let run := CrudBase._create_instance (P := dict) User_settings create_one_field
               api_for_user_1 in
  run = Returned 1 (world_of run)
  ∧ attrs (deref (ssn (world_of run)) 1) = create_one_field
  ∧ status (deref (ssn (world_of run)) 1) = Transient.
Proof.
  cbv zeta.
  assert (Hrun : CrudBase._create_instance (P := dict) User_settings create_one_field
                   api_for_user_1
                 = Returned 1 (world_of (CrudBase._create_instance (P := dict) User_settings
                                           create_one_field api_for_user_1)))
    by (vm_compute; reflexivity).
  split; [exact Hrun|].
  pose proof (create_instance_is_fresh (P := dict) User_settings create_one_field
                api_for_user_1 _ 1 Hrun) as H.
  split; [exact (proj1 (proj2 H))|exact (proj1 (proj2 (proj2 (proj2 H))))].
Defined.

Lemma create_round_trip_witness :
  let run := UserMutateApi.create create_with_pk api_for_user_1 in
  run = Returned pk_999 (world_of run)
  ∧ status (deref (ssn (world_of run)) 1) = Persistent
  ∧ select_where (ssn (world_of run))
      ((λ k, ColEq k (dict_get pk_999 k)) <$> primary_key User_settings) = [1].
Proof.
  cbv zeta.
  assert (Hrun : UserMutateApi.create create_with_pk api_for_user_1
                 = Returned pk_999 (world_of (UserMutateApi.create create_with_pk
                                                api_for_user_1)))
    by (vm_compute; reflexivity).
  split; [exact Hrun|].
  pose proof (create_round_trip (P := dict) User_settings create_with_pk
                api_for_user_1 _ pk_999 Hrun) as H.
  cbv zeta in H.
  split; [exact (proj1 H)|exact (proj2 (proj2 (proj2 (proj2 (proj2 (proj2 H))))))].
Defined.

Lemma other_entities_keep_attrs_witness :
  ∃ pk w',
    run_op (CrudParamsT0 := UserIdCrudParams) User_settings false
      (OpUpdateId change_login) api_for_user_2 = Returned pk w'
    ∧ 0 < length (objects (ssn api_for_user_2))
    ∧ resolved_by (CrudParamsT0 := UserIdCrudParams) (OpUpdateId change_login)
        api_for_user_2 = [1]
    ∧ status (deref (ssn api_for_user_2) 0) = Persistent
    ∧ attrs (deref (ssn w') 0) = attrs (deref (ssn api_for_user_2) 0).
Proof.
  assert (Hlen : 0 < length (objects (ssn api_for_user_2))) by (vm_compute; lia).
  assert (Hres : resolved_by (CrudParamsT0 := UserIdCrudParams) (OpUpdateId change_login)
                   api_for_user_2 = [1]) by (vm_compute; reflexivity).
  assert (Hst : status (deref (ssn api_for_user_2) 0) = Persistent)
    by (vm_compute; reflexivity).
  eexists _, _. split; [vm_compute; reflexivity|].
  split; [exact Hlen|]. split; [exact Hres|]. split; [exact Hst|].
  eapply (other_entities_keep_attrs (CrudParamsT0 := UserIdCrudParams) User_settings false
            (OpUpdateId change_login) api_for_user_2 _ _ 0);
    [vm_compute; reflexivity|exact Hlen| |].
  - rewrite Hres. intros Hin. apply list_elem_of_singleton in Hin. discriminate.
  - rewrite Hst. discriminate.
Defined.

Lemma delete_then_not_found_witness :
  let run := UserMutateApi.delete api_for_user_1 in
  run = Returned pk_1 (world_of run)
  ∧ select_where (ssn (world_of run))
      (filter_one (CrudParamsT := UserIdCrudParams) (params (world_of run))) = []
  ∧ result_of (UserMutateApi.delete (world_of run)) = inl NoResultFound.
Proof.
  cbv zeta.
  assert (Hrun : UserMutateApi.delete api_for_user_1
                 = Returned pk_1 (world_of (UserMutateApi.delete api_for_user_1)))
    by (vm_compute; reflexivity).
  split; [exact Hrun|].
  pose proof (delete_then_not_found (CrudParamsT0 := UserIdCrudParams) User_settings false
                api_for_user_1 _ pk_1 one_user_settled Hrun) as H.
  split; [exact (proj1 H)|].
  unfold UserMutateApi.delete at 1. rewrite (proj1 (proj2 H)). reflexivity.
Defined.

Lemma update_id_empty_input_witness :
  let run := UserMutateApi.update_id ∅ api_for_user_1 in
  run = Returned pk_1 (world_of run)
  ∧ ∃ a, select_where (ssn api_for_user_1)
           (filter_one (CrudParamsT := UserIdCrudParams) (params api_for_user_1)) = [a]
         ∧ session_flush User (ssn api_for_user_1) = inr (ssn (world_of run)).
Proof.
  cbv zeta.
  assert (Hrun : UserMutateApi.update_id ∅ api_for_user_1
                 = Returned pk_1 (world_of (UserMutateApi.update_id ∅ api_for_user_1)))
    by (vm_compute; reflexivity).
  split; [exact Hrun|].
  destruct (update_id_empty_input (CrudParamsT0 := UserIdCrudParams) User_settings false
              api_for_user_1 _ pk_1 Hrun) as (a & Hsel & Hflush & _).
  exists a. split; [exact Hsel|exact Hflush].
Defined.

Lemma unbound_filter_func_raises_witness :
  _filter_func api_for_user_1 = None
  ∧ run (CrudBase.query (CrudParamsT0 := UserIdCrudParams) empty_query_object)
        api_for_user_1
    = Raised AttributeError api_for_user_1.
Proof.
  assert (Hf : _filter_func api_for_user_1 = None) by reflexivity.
  split; [exact Hf|].
  pose proof (unbound_filter_func_raises (CrudParamsT0 := UserIdCrudParams)
                {| query_level := 0; query_spec := empty_query_object |}
                {| whereclause := [] |} empty_query_object api_for_user_1 Hf) as H.
  exact (proj1 (proj2 (proj2 H))).
Defined.

Lemma Documentation_merge_in_place_witness :
  0 < length sample_docs
  ∧ Doc.summary (Doc.read (Doc.Documentation_merge sample_docs 0 (Some 1)).1 0)
    = Some "Load a user by id"
  ∧ Doc.read (Doc.Documentation_merge sample_docs 0 (Some 1)).1 1 = Doc.read sample_docs 1.
Proof.
  assert (Hlt : 0 < length sample_docs) by (simpl; lia).
  split; [exact Hlt|].
  pose proof (Documentation_merge_in_place sample_docs 0 (Some 1) Hlt) as H.
  split.
  - rewrite (proj1 (proj2 (proj2 (proj2 (proj2 H))))). reflexivity.
  - apply (proj1 (proj2 (proj2 H))). lia.
Defined.

Lemma Documentation_merge_assoc_witness :
  (0 < length sample_docs ∧ 1 < length sample_docs)
  ∧ Doc.read (Doc.Documentation_merge
                (Doc.Documentation_merge sample_docs 0 (Some 1)).1 0 (Some 2)).1 0
    = Doc.read (Doc.Documentation_merge
                  (Doc.Documentation_merge sample_docs 1 (Some 2)).1 0 (Some 1)).1 0.
Proof.
  assert (H0 : 0 < length sample_docs) by (simpl; lia).
  assert (H1 : 1 < length sample_docs) by (simpl; lia).
  split; [exact (conj H0 H1)|].
  apply (Documentation_merge_assoc sample_docs 0 1 2 H0 H1); lia.
Defined.

Lemma merge_shares_documentation_witness :
  let self := Doc.init in
  let another := Doc.with_function_doc (Some 0) Doc.init in
  let third := Doc.with_function_doc (Some 1) Doc.init in
  Doc.function_doc (Doc.merge sample_docs self another).2 = Some 0
  ∧ Doc.content (Doc.merge sample_docs (Doc.merge sample_docs self another).2 third).1
                 (Doc.function_doc another)
    = Some (Doc.merged sample_docs 0 1).
Proof.
  cbv zeta.
  pose proof (merge_shares_documentation sample_docs Doc.init
                (Doc.with_function_doc (Some 0) Doc.init)
                (Doc.with_function_doc (Some 1) Doc.init) 0 1
                eq_refl eq_refl eq_refl eq_refl eq_refl eq_refl eq_refl
                ltac:(simpl; lia)) as H.
  split; [exact (proj1 (proj2 H))|exact (proj1 (proj2 (proj2 H)))].
Defined.

Lemma add_doc_for_function_accumulates_witness :
  let once := Doc._add_doc_for_function sample_docs Doc.init (Some "Delete") None in
  let twice := Doc._add_doc_for_function once.1 once.2 (Some " a user") (Some "For good") in
  Doc.function_doc Doc.init = None
  ∧ Doc.content twice.1 (Doc.function_doc twice.2)
    = Some {| Doc.summary := Some "Delete a user"; Doc.description := Some "For good";
              Doc.class_ := Doc.FunctionDoc |}.
Proof.
  cbv zeta. split; [reflexivity|].
  pose proof (add_doc_for_function_accumulates sample_docs Doc.init
                (Some "Delete") None (Some " a user") (Some "For good") eq_refl) as H.
  cbv zeta in H. rewrite (proj2 H). reflexivity.
Defined.

Lemma add_doc_deprecated_drops_version_witness :
  let self := Doc.with_deprecated_doc (Some 2) Doc.init in
  (∀ a, Doc.deprecated_doc self = Some a → a < length sample_docs)
  ∧ ∃ a, Doc.deprecated_doc
           (Doc._add_doc_deprecated sample_docs self "2.0" (Some "Gone") None).2 = Some a
         ∧ Doc.class_ (Doc.read (Doc._add_doc_deprecated sample_docs self "2.0"
                                   (Some "Gone") None).1 a)
           = Doc.DeprecatedDoc "1.0".
Proof.
  cbv zeta.
  assert (Hvalid : ∀ a, Doc.deprecated_doc (Doc.with_deprecated_doc (Some 2) Doc.init)
                        = Some a → a < length sample_docs).
  { intros a Ha. injection Ha as <-. simpl. lia. }
  split; [exact Hvalid|].
  destruct (add_doc_deprecated_drops_version sample_docs
              (Doc.with_deprecated_doc (Some 2) Doc.init) "2.0" (Some "Gone") None Hvalid)
    as (a & Ha & Hclass & _).
  exists a. split; [exact Ha|]. rewrite Hclass. reflexivity.
Defined.

Lemma find_object_reads_first_attribute_witness :
  (PyStr.count Doc.dot "pkg" = 0 ∧ PyStr.count Doc.dot "exc" = 0)
  ∧ Doc.find_object_in_namespace nested_globals "pkg.exc.E_NOT_FOUND"
    = Some (inr (Doc.PyObj Doc.OtherClass [])).
Proof.
  assert (Hname : PyStr.count Doc.dot "pkg" = 0) by (vm_compute; reflexivity).
  assert (Hattr : PyStr.count Doc.dot "exc" = 0) by (vm_compute; reflexivity).
  split; [exact (conj Hname Hattr)|].
  pose proof (find_object_reads_first_attribute nested_globals "pkg" "exc" ["E_NOT_FOUND"]
                Hname Hattr) as H.
  etrans; [|etrans; [exact H|]]; vm_compute; reflexivity.
Defined.

Lemma merge_field_by_field_witness :
  let self := Doc.with_function_doc (Some 0) Doc.init in
  let another := Doc.with_function_doc (Some 1) (Doc.with_deprecated_doc (Some 2) Doc.init) in
  NoDup (Doc.held self)
  ∧ Doc.content (Doc.merge sample_docs self another).1
                 (Doc.function_doc (Doc.merge sample_docs self another).2)
    = Some (Doc.merged sample_docs 0 1)
  ∧ Doc.content (Doc.merge sample_docs self another).1
                 (Doc.deprecated_doc (Doc.merge sample_docs self another).2)
    = Some (Doc.read sample_docs 2).
Proof.
  cbv zeta.
  assert (Hnd : NoDup (Doc.held (Doc.with_function_doc (Some 0) Doc.init))).
  { change (NoDup [0]). apply NoDup_singleton. }
  assert (Hheld : ∀ a, a ∈ Doc.held (Doc.with_function_doc (Some 0) Doc.init) →
                       a < length sample_docs
                       ∧ a ∉ Doc.held (Doc.with_function_doc (Some 1)
                                         (Doc.with_deprecated_doc (Some 2) Doc.init))).
  { intros a Ha. change (a ∈ [0]) in Ha. apply list_elem_of_singleton in Ha as ->.
    split; [simpl; lia|]. change (0 ∉ [1; 2]). intros Hin.
    apply elem_of_cons in Hin as [Hin|Hin]; [discriminate|].
    apply elem_of_cons in Hin as [Hin|Hin]; [discriminate|].
    by apply not_elem_of_nil in Hin. }
  split; [exact Hnd|].
  pose proof (merge_field_by_field sample_docs
                (Doc.with_function_doc (Some 0) Doc.init)
                (Doc.with_function_doc (Some 1) (Doc.with_deprecated_doc (Some 2) Doc.init))
                Hnd Hheld) as H.
  split; [exact (proj1 H)|exact (proj1 (proj2 (proj2 H)))].
Defined.
